(** * Scripts/patch-openapi-spec.py: the OpenAPI spec patcher

    A shallow embedding of the script and the proofs of its specification.

    The script loads a JSON document, walks to [components.schemas], deletes
    the member [additionalProperties] from up to four named schema objects,
    writes the document back to the same path and prints one summary line.

    Modelling decisions, all taken from the source:
    - a document is the tree of Python values [json.load] builds ([pyval]):
      [None], [bool], [int] (unbounded), [float] (an IEEE-754 double, as
      [spec_float]), [str], [list] and [dict].  A [dict] keeps its members in
      insertion order, so it is an association list; its keys are pairwise
      distinct ([wf]).
    - a [str] is a [string]; the names the script looks for are ASCII, and
      substring search on UTF-8 bytes agrees with substring search on code
      points.
    - the operations used by the script ([.get], [in], [[]], [del], [==])
      are defined on every [pyval], raising what Python raises on a value of
      the wrong type.
    - [json.load] returns a tree without shared nodes.  The local names
      [schemas] and [schema] alias sub-objects of [spec]; a name bound to a
      sub-object is a [ref]: its current value and the way a mutation of it
      shows in the enclosing object.
    - a file is what [json.load] makes of its text: a document or a parse
      error.  [json.dump] writes text that loads back to the value dumped.
    - the world is the file system, the lines printed on standard output and
      the log of the [open] calls. *)

From Stdlib Require Import ZArith String List Bool.
From Stdlib Require Import Floats.SpecFloat.
From stdpp Require Import gmap strings list fin_maps.

Import ListNotations.
Local Open Scope string_scope.
Local Open Scope list_scope.

(** ** Python values *)

Module Py.

#[local] Unset Elimination Schemes.
Inductive pyval : Type :=
| PNone
| PBool (b : bool)
| PInt (n : Z)
| PFloat (x : spec_float)
| PStr (s : string)
| PList (items : list pyval)
| PDict (members : list (string * pyval)).
#[local] Set Elimination Schemes.

(** The exceptions that can reach the top of the script.  [ValueError]
    stands for what [json.load] raises on text it cannot parse
    ([json.JSONDecodeError] and [UnicodeDecodeError] are both [ValueError]s). *)
Inductive exn : Type :=
| FileNotFoundError
| PermissionError
| ValueError
| AttributeError
| TypeError
| KeyError
| IndexError
| SystemExit (code : Z).

Inductive result (A : Type) : Type :=
| Ok (a : A)
| Raise (e : exn).

Arguments Ok {A} a.
Arguments Raise {A} e.

Definition bind {A B : Type} (r : result A) (k : A -> result B) : result B :=
  match r with
  | Ok a => k a
  | Raise e => Raise e
  end.

(** *** dict as an insertion-ordered association list *)

Fixpoint dict_get (key : string) (d : list (string * pyval)) : option pyval :=
  match d with
  | [] => None
  | (k, v) :: rest => if String.eqb key k then Some v else dict_get key rest
  end.

(** [d[key] = v]: an existing key keeps its position, a new one goes last. *)
Fixpoint dict_set (key : string) (v : pyval) (d : list (string * pyval))
  : list (string * pyval) :=
  match d with
  | [] => [(key, v)]
  | (k, x) :: rest =>
      if String.eqb key k then (k, v) :: rest else (k, x) :: dict_set key v rest
  end.

(** [del d[key]] on a key that is there. *)
Fixpoint dict_del (key : string) (d : list (string * pyval))
  : list (string * pyval) :=
  match d with
  | [] => []
  | (k, x) :: rest =>
      if String.eqb key k then rest else (k, x) :: dict_del key rest
  end.

(** Membership of a string in a list of strings, as a boolean. *)
Fixpoint mem (s : string) (l : list string) : bool :=
  match l with
  | [] => false
  | x :: rest => String.eqb s x || mem s rest
  end.

Fixpoint distinct (l : list string) : bool :=
  match l with
  | [] => true
  | x :: rest => negb (mem x rest) && distinct rest
  end.

(** The values [json.load] can return: every dict has distinct keys. *)
Fixpoint wf (v : pyval) : bool :=
  match v with
  | PList items => forallb wf items
  | PDict d => distinct (map fst d) && forallb (fun kv => wf (snd kv)) d
  | _ => true
  end.

(** *** The operations of the script *)

(** [needle in hay] on two [str]: substring test. *)
Fixpoint str_contains (needle hay : string) : bool :=
  String.prefix needle hay
  || match hay with
     | EmptyString => false
     | String _ rest => str_contains needle rest
     end.

(** [v == s] for a [str] s. *)
Definition py_eq_str (v : pyval) (s : string) : bool :=
  match v with
  | PStr t => String.eqb t s
  | _ => false
  end.

(** [v == False].  [bool] is a subclass of [int], and numbers compare by
    value across [int] and [float]: [0 == False] and [0.0 == False] hold. *)
Definition py_eq_False (v : pyval) : bool :=
  match v with
  | PBool b => negb b
  | PInt n => Z.eqb n 0
  | PFloat x => SFeqb x (S754_zero false)
  | PNone | PStr _ | PList _ | PDict _ => false
  end.

(** [obj.get(key, default)]: only a dict has the method. *)
Definition py_get (obj : pyval) (key : string) (default : pyval) : result pyval :=
  match obj with
  | PDict d =>
      Ok (match dict_get key d with Some v => v | None => default end)
  | _ => Raise AttributeError
  end.

(** [key in obj] for a [str] key. *)
Definition py_contains (key : string) (obj : pyval) : result bool :=
  match obj with
  | PDict d => Ok (match dict_get key d with Some _ => true | None => false end)
  | PList items => Ok (existsb (fun x => py_eq_str x key) items)
  | PStr s => Ok (str_contains key s)
  | PNone | PBool _ | PInt _ | PFloat _ => Raise TypeError
  end.

(** [obj[key]] for a [str] key. *)
Definition py_getitem (obj : pyval) (key : string) : result pyval :=
  match obj with
  | PDict d =>
      match dict_get key d with
      | Some v => Ok v
      | None => Raise KeyError
      end
  | _ => Raise TypeError
  end.

(** [del obj[key]] for a [str] key; the result is the object afterwards. *)
Definition py_delitem (obj : pyval) (key : string) : result pyval :=
  match obj with
  | PDict d =>
      match dict_get key d with
      | Some _ => Ok (PDict (dict_del key d))
      | None => Raise KeyError
      end
  | _ => Raise TypeError
  end.

(** *** Names bound to sub-objects

    [x = obj.get(key, {})] and [x = obj[key]] bind [x] to the very object
    stored in [obj] (or, for [.get] on a missing key, to a fresh [{}] that
    [obj] does not hold).  A later mutation through [x] is seen through
    [obj] in the first case and by nobody else in the second.  [writeback r v]
    is the enclosing object once the object [r] names has become [v]. *)

Record ref : Type := Ref { deref : pyval; writeback : pyval -> pyval }.

Definition py_store (obj : pyval) (key : string) (v : pyval) : pyval :=
  match obj with
  | PDict d => PDict (dict_set key v d)
  | _ => obj
  end.

Definition get_ref (obj : pyval) (key : string) (default : pyval) : result ref :=
  match obj with
  | PDict d =>
      Ok (match dict_get key d with
          | Some v => Ref v (py_store obj key)
          | None => Ref default (fun _ => obj)
          end)
  | _ => Raise AttributeError
  end.

Definition getitem_ref (obj : pyval) (key : string) : result ref :=
  bind (py_getitem obj key) (fun v => Ok (Ref v (py_store obj key))).

End Py.

Export Py.

Declare Scope py_scope.
Delimit Scope py_scope with py.
Notation "'let*' x ':=' c 'in' k" := (bind c (fun x => k))
  (at level 10, x pattern, c at level 100, k at level 200) : py_scope.
Notation "'let*' ' pat ':=' c 'in' k" :=
  (bind c (fun x => match x with pat => k end))
  (at level 10, pat pattern, c at level 100, k at level 200) : py_scope.
Local Open Scope py_scope.

(** ** The script, in memory *)

Definition SCHEMAS_TO_PATCH : list string :=
  [ "AIIdentificationInput";
    "IdentificationDataInput";
    "CardDetailsInput";
    "IdentifyCardResponseInput" ].

Definition TARGET : string := "additionalProperties".

(** One turn of the [for] loop.  The state is the object [schemas] names and
    the list [patched]. *)
Definition patch_one (schema_name : string) (st : pyval * list string)
  : result (pyval * list string) :=
  let '(schemas, patched) := st in
  let* present := py_contains schema_name schemas in
  if present : bool then
    let* schema := getitem_ref schemas schema_name in
    let* ap := py_get (deref schema) TARGET PNone in
    if py_eq_False ap then
      let* schema' := py_delitem (deref schema) TARGET in
      Ok (writeback schema schema', patched ++ [schema_name])
    else Ok st
  else Ok st.

Fixpoint patch_loop (names : list string) (st : pyval * list string)
  : result (pyval * list string) :=
  match names with
  | [] => Ok st
  | schema_name :: rest =>
      let* st' := patch_one schema_name st in
      patch_loop rest st'
  end.

(** Lines 39 to 47: from the loaded [spec] to the [spec] that is dumped and
    the list [patched]. *)
Definition patch_doc (spec : pyval) : result (pyval * list string) :=
  let* components := get_ref spec "components" (PDict []) in
  let* schemas := get_ref (deref components) "schemas" (PDict []) in
  let* '(schemas', patched) := patch_loop SCHEMAS_TO_PATCH (deref schemas, []) in
  Ok (writeback components (writeback schemas schemas'), patched).

(** Lines 52 to 55. *)
Definition summary (patched : list string) : string :=
  match patched with
  | [] => "No schemas needed patching"
  | _ :: _ => "Patched schemas: " ++ String.concat ", " patched
  end.

(** ** Files, standard output and the process *)

(** What [json.load] makes of a file's text. *)
Inductive content : Type :=
| NotJson
| Json (doc : pyval).

Record file : Type :=
  File { readable : bool; writable : bool; holds : content }.

Inductive access : Type :=
| OpenRead (path : string)
| OpenWrite (path : string).

Record world : Type :=
  World { files : gmap string file;
          stdout : list string;
          opened : list access }.

Definition io (A : Type) : Type := world -> result A * world.

Definition ret {A : Type} (a : A) : io A := fun w => (Ok a, w).

Definition raise {A : Type} (e : exn) : io A := fun w => (Raise e, w).

Definition iobind {A B : Type} (m : io A) (k : A -> io B) : io B :=
  fun w =>
    match m w with
    | (Ok a, w') => k a w'
    | (Raise e, w') => (Raise e, w')
    end.

Definition lift {A : Type} (r : result A) : io A := fun w => (r, w).

Notation "'let!' x ':=' c 'in' k" := (iobind c (fun x => k))
  (at level 10, x pattern, c at level 100, k at level 200) : py_scope.
Notation "'let!' ' pat ':=' c 'in' k" :=
  (iobind c (fun x => match x with pat => k end))
  (at level 10, pat pattern, c at level 100, k at level 200) : py_scope.

Definition log (a : access) (w : world) : world :=
  World (files w) (stdout w) (opened w ++ [a]).

(** [with open(filepath, 'r') as f: ... f.read()]. *)
Definition read_file (filepath : string) : io content :=
  fun w =>
    let w' := log (OpenRead filepath) w in
    match files w !! filepath with
    | None => (Raise FileNotFoundError, w')
    | Some f =>
        if readable f then (Ok (holds f), w') else (Raise PermissionError, w')
    end.

Definition json_load (c : content) : result pyval :=
  match c with
  | Json doc => Ok doc
  | NotJson => Raise ValueError
  end.

Definition json_dump (doc : pyval) : content := Json doc.

(** [with open(filepath, 'w') as f: f.write(text)]; mode ['w'] creates a
    missing file. *)
Definition write_file (filepath : string) (text : content) : io unit :=
  fun w =>
    let w' := log (OpenWrite filepath) w in
    match files w !! filepath with
    | None =>
        (Ok tt, World (<[filepath := File true true text]> (files w'))
                      (stdout w') (opened w'))
    | Some f =>
        if writable f then
          (Ok tt, World (<[filepath := File (readable f) true text]> (files w'))
                        (stdout w') (opened w'))
        else (Raise PermissionError, w')
    end.

Definition print (line : string) : io unit :=
  fun w => (Ok tt, World (files w) (stdout w ++ [line]) (opened w)).

Definition patch_spec (filepath : string) : io pyval :=
  let! text := read_file filepath in
  let! spec := lift (json_load text) in
  let! '(spec', patched) := lift (patch_doc spec) in
  let! _ := write_file filepath (json_dump spec') in
  let! _ := print (summary patched) in
  ret PNone.

Definition USAGE : string :=
  "Usage: patch-openapi-spec.py <path-to-openapi.json>".

(** The [__main__] block; [argv] is [sys.argv], program name included. *)
Definition main (argv : list string) : io pyval :=
  if negb (Nat.eqb (length argv) 2) then
    let! _ := print USAGE in
    raise (SystemExit 1)
  else
    match nth_error argv 1 with
    | Some filepath => patch_spec filepath
    | None => raise IndexError
    end.

(** The status the interpreter exits with. *)
Definition exit_status {A : Type} (r : result A) : Z :=
  match r with
  | Ok _ => 0
  | Raise (SystemExit code) => code
  | Raise _ => 1
  end.

Definition run (argv : list string) (w : world) : Z * world :=
  let '(r, w') := main argv w in (exit_status r, w').

(** ** What the patch is said to do

    The definitions below do not follow the control flow of the script; they
    state its effect on a document, to be compared with [patch_doc]. *)

(** [obj[key]] where it exists. *)
Definition member (key : string) (obj : pyval) : option pyval :=
  match obj with
  | PDict d => dict_get key d
  | _ => None
  end.

Definition schemas_of (spec : pyval) : option pyval :=
  match member "components" spec with
  | Some components => member "schemas" components
  | None => None
  end.

(** The entry [components.schemas.<name>] of a document. *)
Definition schema_entry (spec : pyval) (name : string) : option pyval :=
  match schemas_of spec with
  | Some schemas => member name schemas
  | None => None
  end.

Definition has_target (entry : pyval) : bool :=
  match member TARGET entry with
  | Some _ => true
  | None => false
  end.

(** The target field is there and the script's test [== False] holds of it. *)
Definition needs_patch (entry : pyval) : bool :=
  match member TARGET entry with
  | Some v => py_eq_False v
  | None => false
  end.

(** The target field is there and is the boolean [false]. *)
Definition target_is_false (entry : pyval) : bool :=
  match member TARGET entry with
  | Some (PBool false) => true
  | _ => false
  end.

Definition drop_target (entry : pyval) : pyval :=
  match entry with
  | PDict m => PDict (dict_del TARGET m)
  | _ => entry
  end.

Definition relax_entry (entry : pyval) : pyval :=
  if needs_patch entry then drop_target entry else entry.

(** Rewrite every member of an object, keeping keys and their order. *)
Definition map_members (f : string -> pyval -> pyval) (obj : pyval) : pyval :=
  match obj with
  | PDict d => PDict (map (fun kv => (fst kv, f (fst kv) (snd kv))) d)
  | _ => obj
  end.

Definition at_member (key : string) (f : pyval -> pyval) : pyval -> pyval :=
  map_members (fun k v => if String.eqb k key then f v else v).

Definition relax_schemas (names : list string) : pyval -> pyval :=
  map_members (fun k v => if mem k names then relax_entry v else v).

(** The document with the target field dropped from the listed entries that
    need it, and nothing else changed. *)
Definition relax_doc (spec : pyval) : pyval :=
  at_member "components" (at_member "schemas" (relax_schemas SCHEMAS_TO_PATCH)) spec.

Definition patched_names (names : list string) (schemas : pyval) : list string :=
  List.filter (fun n => match member n schemas with
                   | Some entry => needs_patch entry
                   | None => false
                   end) names.

(** The listed names whose entry has the target field before and not after. *)
Definition removed_names (before after : pyval) : list string :=
  List.filter (fun n => match schema_entry before n, schema_entry after n with
                   | Some e, Some e' => has_target e && negb (has_target e')
                   | _, _ => false
                   end) SCHEMAS_TO_PATCH.

(** Every listed name is missing from the object or names an object. *)
Definition entries_ok (names : list string) (schemas : pyval) : bool :=
  forallb (fun n => match member n schemas with
                    | Some (PDict _) | None => true
                    | Some _ => false
                    end) names.

Definition is_dict (v : pyval) : bool :=
  match v with
  | PDict _ => true
  | _ => false
  end.

(** A list that has the name among its items, or a string that has it as a
    substring: what [in] answers on a value that is not a mapping. *)
Definition mentions (name : string) (v : pyval) : bool :=
  match v with
  | PList items => existsb (fun x => py_eq_str x name) items
  | PStr s => str_contains name s
  | _ => false
  end.

Definition is_sequence (v : pyval) : bool :=
  match v with
  | PList _ | PStr _ => true
  | _ => false
  end.

(** The object the name [schemas] is bound to on line 39. *)
Definition schemas_or_empty (spec : pyval) : pyval :=
  match schemas_of spec with
  | Some schemas => schemas
  | None => PDict []
  end.

(** The document once the object [components.schemas] has become [s]. *)
Definition reattach (top c : list (string * pyval)) (s : pyval) : pyval :=
  PDict (dict_set "components" (PDict (dict_set "schemas" s c)) top).

(** The documents on which lines 39 to 47 run to the end: the root is an
    object; [components] is missing or an object; [schemas] is missing, or an
    object whose listed entries are objects, or a list or string that does
    not mention a listed name. *)
Definition patchable (spec : pyval) : bool :=
  match spec with
  | PDict top =>
      match dict_get "components" top with
      | None => true
      | Some (PDict c) =>
          match dict_get "schemas" c with
          | None => true
          | Some (PDict d) => entries_ok SCHEMAS_TO_PATCH (PDict d)
          | Some s =>
              is_sequence s
              && negb (existsb (fun n => mentions n s) SCHEMAS_TO_PATCH)
          end
      | Some _ => false
      end
  | _ => false
  end.

(** What is raised on the other documents. *)
Definition failure (spec : pyval) : exn :=
  match schemas_of spec with
  | Some (PDict _) | None => AttributeError
  | Some _ => TypeError
  end.

(** ** Worlds and documents used in statements *)

(** The file at [filepath] can be read and holds the document [spec]. *)
Definition loads (w : world) (filepath : string) (spec : pyval) : Prop :=
  exists f, files w !! filepath = Some f /\ readable f = true /\ holds f = Json spec.

(** The file can be read and written and holds the document [spec]. *)
Definition stores (w : world) (filepath : string) (spec : pyval) : Prop :=
  files w !! filepath = Some (File true true (Json spec)).

(** [components] is missing, or is an object without [schemas]. *)
Definition schemas_absent (spec : pyval) : bool :=
  match member "components" spec with
  | None => true
  | Some components =>
      is_dict components
      && match member "schemas" components with
         | None => true
         | Some _ => false
         end
  end.

(** [components.schemas] is an object with none of the listed names. *)
Definition none_listed (spec : pyval) : bool :=
  match schemas_of spec with
  | Some (PDict d) => forallb (fun n => negb (mem n (map fst d))) SCHEMAS_TO_PATCH
  | _ => false
  end.

(** The line the summary is said to be: the names whose field was removed,
    comma-joined, or the fixed message. *)
Definition report (names : list string) : string :=
  match names with
  | [] => "No schemas needed patching"
  | _ :: _ => "Patched schemas: " ++ String.concat ", " names
  end.

Definition PROGRAM : string := "patch-openapi-spec.py".
Definition OPENAPI : string := "openapi.json".

Definition schemas_doc (schemas : pyval) : pyval :=
  PDict [("openapi", PStr "3.1.0");
         ("components", PDict [("schemas", schemas)])].

Definition one_file (f : file) : world := World {[ OPENAPI := f ]} [] [].

Definition world_with (spec : pyval) : world := one_file (File true true (Json spec)).

(** [{"CardDetailsInput": {"additionalProperties": <v>, "type": "object"}}] *)
Definition card_details (v : pyval) : pyval :=
  PDict [("CardDetailsInput",
          PDict [(TARGET, v); ("type", PStr "object")])].

Definition card_details_patched : pyval :=
  PDict [("CardDetailsInput", PDict [("type", PStr "object")])].

Definition unrelated : pyval :=
  PDict [("UnrelatedSchema", PDict [(TARGET, PBool false)])].

Definition two_schemas : pyval :=
  PDict [("UnrelatedSchema", PDict [(TARGET, PBool false)]);
         ("CardDetailsInput", PDict [(TARGET, PBool false); ("type", PStr "object")])].

Definition three_schemas : pyval :=
  PDict [("IdentifyCardResponseInput", PDict [(TARGET, PBool false)]);
         ("UnrelatedSchema", PDict [(TARGET, PBool false)]);
         ("CardDetailsInput", PDict [(TARGET, PBool true)]);
         ("AIIdentificationInput", PDict [("type", PStr "object"); (TARGET, PBool false)])].

(** The scenario document in its file, and the world after one and after
    two runs. *)
Definition card_world : world :=
  world_with (schemas_doc (card_details (PBool false))).

Definition card_world_once : world := snd (patch_spec OPENAPI card_world).

Definition card_world_twice : world := snd (patch_spec OPENAPI card_world_once).

(** The file is missing, cannot be read, or does not parse. *)
Definition load_fails (w : world) (filepath : string) : Prop :=
  files w !! filepath = None
  \/ exists f, files w !! filepath = Some f
               /\ (readable f = false \/ holds f = NotJson).

(** ** Further vocabulary *)

(** The keys of an object, in order. *)
Definition keys_of (v : pyval) : list string :=
  match v with
  | PDict d => map fst d
  | _ => []
  end.


(** A file that can be read and not written. *)
Definition read_only (spec : pyval) : world :=
  one_file (File true false (Json spec)).

(** Two files, the second of which is not the one patched. *)
Definition two_files (spec other : pyval) : world :=
  World (<[ "other.json" := File true true (Json other) ]>
           {[ OPENAPI := File true true (Json spec) ]}) [] [].

(** ** Facts about dicts *)

Section DictFacts.

Implicit Types (d : list (string * pyval)) (k key : string) (v : pyval).

Lemma mem_In (s : string) (l : list string) : mem s l = true <-> In s l.
Proof.
  induction l as [|x l IH]; simpl.
  - split; [discriminate | tauto].
  - rewrite orb_true_iff, IH, String.eqb_eq. split; intros [H|H]; auto.
Qed.

Lemma mem_keys_get key d :
  mem key (map fst d) = match dict_get key d with Some _ => true | None => false end.
Proof.
  induction d as [|[k v] d IH]; simpl; [reflexivity|].
  destruct (String.eqb key k); simpl; auto.
Qed.

Lemma dict_get_set_eq key v d : dict_get key (dict_set key v d) = Some v.
Proof.
  induction d as [|[k x] d IH]; simpl.
  - now rewrite String.eqb_refl.
  - destruct (String.eqb key k) eqn:E; simpl; rewrite E; auto.
Qed.

Lemma dict_set_same key v d : dict_get key d = Some v -> dict_set key v d = d.
Proof.
  induction d as [|[k x] d IH]; simpl; [discriminate|].
  destruct (String.eqb key k) eqn:E.
  - intros [= ->]. reflexivity.
  - intros H. now rewrite IH.
Qed.

Lemma keys_dict_set key v d :
  dict_get key d <> None -> map fst (dict_set key v d) = map fst d.
Proof.
  induction d as [|[k x] d IH]; simpl; [congruence|].
  destruct (String.eqb key k) eqn:E; simpl; [reflexivity|].
  intros H. now rewrite IH.
Qed.

Lemma dict_get_del_ne key k d :
  key <> k -> dict_get k (dict_del key d) = dict_get k d.
Proof.
  intros Hne. induction d as [|[k0 x] d IH]; simpl; [reflexivity|].
  destruct (String.eqb key k0) eqn:E; simpl.
  - apply String.eqb_eq in E. subst k0.
    assert (String.eqb k key = false) as ->; [|reflexivity].
    apply String.eqb_neq. congruence.
  - now rewrite IH.
Qed.

Lemma dict_get_del_eq key d :
  distinct (map fst d) = true -> dict_get key (dict_del key d) = None.
Proof.
  induction d as [|[k x] d IH]; simpl; [reflexivity|].
  rewrite andb_true_iff, negb_true_iff. intros [Hk Hd].
  destruct (String.eqb key k) eqn:E; simpl.
  - apply String.eqb_eq in E. subst k.
    rewrite mem_keys_get in Hk. now destruct (dict_get key d).
  - rewrite E. auto.
Qed.

Lemma mem_keys_del key k d :
  mem k (map fst (dict_del key d)) = true -> mem k (map fst d) = true.
Proof.
  induction d as [|[k0 x] d IH]; simpl; [auto|].
  destruct (String.eqb key k0); simpl.
  - intros ->. apply orb_true_r.
  - rewrite !orb_true_iff. intros [H|H]; auto.
Qed.

Lemma distinct_del key d :
  distinct (map fst d) = true -> distinct (map fst (dict_del key d)) = true.
Proof.
  induction d as [|[k x] d IH]; simpl; [auto|].
  rewrite andb_true_iff, negb_true_iff. intros [Hk Hd].
  destruct (String.eqb key k); simpl; [assumption|].
  rewrite IH by assumption. rewrite andb_true_r, negb_true_iff.
  destruct (mem k (map fst (dict_del key d))) eqn:E; [|reflexivity].
  apply mem_keys_del in E. congruence.
Qed.

Lemma wf_dict_get key d v :
  wf (PDict d) = true -> dict_get key d = Some v -> wf v = true.
Proof.
  simpl. rewrite andb_true_iff. intros [_ H].
  induction d as [|[k x] d IH]; simpl in *; [discriminate|].
  apply andb_true_iff in H as [Hx Hd].
  destruct (String.eqb key k); [intros [= <-]; assumption | auto].
Qed.

Lemma wf_dict_del key d : wf (PDict d) = true -> wf (PDict (dict_del key d)) = true.
Proof.
  simpl. rewrite !andb_true_iff. intros [Hk H]. split.
  - now apply distinct_del.
  - clear Hk. induction d as [|[k x] d IH]; simpl in *; [reflexivity|].
    apply andb_true_iff in H as [Hx Hd].
    destruct (String.eqb key k); simpl; [assumption|].
    now rewrite Hx, IH.
Qed.

End DictFacts.

(** ** The loop on a dict of schemas *)

Section LoopFacts.

Implicit Types (d m : list (string * pyval)) (p : list string).

Lemma dict_get_map f key d :
  dict_get key (map (fun kv => (fst kv, f (fst kv) (snd kv))) d)
  = option_map (f key) (dict_get key d).
Proof.
  induction d as [|[k x] d IH]; simpl; [reflexivity|].
  destruct (String.eqb key k) eqn:E; [|assumption].
  apply String.eqb_eq in E. now subst.
Qed.

Lemma member_map_members f key obj :
  member key (map_members f obj) = option_map (f key) (member key obj).
Proof. destruct obj; simpl; try reflexivity. apply dict_get_map. Qed.

Lemma map_members_ext f g obj :
  (forall k v, member k obj = Some v -> f k v = g k v) ->
  distinct (match obj with PDict d => map fst d | _ => [] end) = true ->
  map_members f obj = map_members g obj.
Proof.
  destruct obj as [| | | | | |d]; simpl; try reflexivity.
  intros H Hd. f_equal.
  induction d as [|[k x] d IH]; simpl in *; [reflexivity|].
  apply andb_true_iff in Hd as [Hk Hd]. apply negb_true_iff in Hk.
  f_equal.
  - f_equal. apply H. now rewrite String.eqb_refl.
  - apply IH; [|assumption]. intros k' v' Hget. apply H.
    destruct (String.eqb k' k) eqn:E; [|assumption].
    apply String.eqb_eq in E. subst k'.
    rewrite mem_keys_get, Hget in Hk. discriminate.
Qed.

Lemma map_members_id f obj :
  (forall k v, member k obj = Some v -> f k v = v) ->
  distinct (match obj with PDict d => map fst d | _ => [] end) = true ->
  map_members f obj = obj.
Proof.
  intros H Hd. rewrite (map_members_ext f (fun _ v => v)) by assumption.
  destruct obj as [| | | | | |d]; simpl; try reflexivity.
  f_equal. clear. induction d as [|[k x] d IH]; simpl; congruence.
Qed.

Lemma map_members_compose f g obj :
  map_members g (map_members f obj) = map_members (fun k v => g k (f k v)) obj.
Proof.
  destruct obj; simpl; try reflexivity. now rewrite map_map.
Qed.

(** Storing at an existing key of a dict with distinct keys rewrites that
    member and no other. *)
Lemma dict_set_at_member key x v d :
  distinct (map fst d) = true -> dict_get key d = Some v ->
  PDict (dict_set key x d) = at_member key (fun _ => x) (PDict d).
Proof.
  unfold at_member. simpl. intros Hd Hget. f_equal.
  induction d as [|[k y] d IH]; simpl in *; [discriminate|].
  apply andb_true_iff in Hd as [Hk Hd]. apply negb_true_iff in Hk.
  destruct (String.eqb key k) eqn:E.
  - apply String.eqb_eq in E. subst k. rewrite String.eqb_refl. f_equal.
    clear IH Hget. induction d as [|[k' y'] d IH]; simpl in *; [reflexivity|].
    apply orb_false_iff in Hk as [Hk Hk']. apply andb_true_iff in Hd as [_ Hd].
    rewrite String.eqb_sym, Hk. f_equal. auto.
  - rewrite String.eqb_sym, E. f_equal. auto.
Qed.

Lemma needs_patch_has_target entry : needs_patch entry = true -> has_target entry = true.
Proof. unfold needs_patch, has_target. now destruct (member TARGET entry). Qed.

Lemma has_target_drop entry :
  wf entry = true -> has_target (drop_target entry) = false.
Proof.
  destruct entry as [| | | | | |m]; try reflexivity.
  unfold has_target. simpl. rewrite andb_true_iff. intros [Hd _].
  now rewrite dict_get_del_eq.
Qed.

Lemma needs_patch_relax entry :
  wf entry = true -> needs_patch (relax_entry entry) = false.
Proof.
  intros Hwf. unfold relax_entry. destruct (needs_patch entry) eqn:E; [|assumption].
  pose proof (has_target_drop entry Hwf) as H.
  unfold has_target in H. unfold needs_patch.
  now destruct (member TARGET (drop_target entry)).
Qed.

Lemma relax_entry_idem entry :
  wf entry = true -> relax_entry (relax_entry entry) = relax_entry entry.
Proof.
  intros Hwf. unfold relax_entry at 1. now rewrite needs_patch_relax.
Qed.

Lemma wf_relax_entry entry : wf entry = true -> wf (relax_entry entry) = true.
Proof.
  unfold relax_entry. destruct (needs_patch entry); [|auto].
  destruct entry; simpl; auto. apply wf_dict_del.
Qed.

Lemma relax_one_present name d entry :
  distinct (map fst d) = true -> dict_get name d = Some entry ->
  relax_schemas [name] (PDict d) = PDict (dict_set name (relax_entry entry) d).
Proof.
  intros Hd Hget. rewrite (dict_set_at_member _ _ _ _ Hd Hget).
  apply map_members_ext; [|assumption].
  intros k x Hk. simpl in *. rewrite orb_false_r.
  destruct (String.eqb k name) eqn:E; [|reflexivity].
  apply String.eqb_eq in E. subst k. congruence.
Qed.

Lemma relax_one_absent name d :
  distinct (map fst d) = true -> dict_get name d = None ->
  relax_schemas [name] (PDict d) = PDict d.
Proof.
  intros Hd Hget. apply map_members_id; [|assumption].
  intros k x Hk. simpl in *. rewrite orb_false_r.
  destruct (String.eqb k name) eqn:E; [|reflexivity].
  apply String.eqb_eq in E. subst k. congruence.
Qed.

(** One turn of the loop on a dict with distinct keys. *)
Lemma patch_one_dict name d p :
  distinct (map fst d) = true ->
  patch_one name (PDict d, p)
  = match dict_get name d with
    | Some (PDict _) | None =>
        Ok (relax_schemas [name] (PDict d), p ++ patched_names [name] (PDict d))
    | Some _ => Raise AttributeError
    end.
Proof.
  intros Hd. destruct (dict_get name d) as [entry|] eqn:Hget.
  - rewrite (relax_one_present _ _ _ Hd Hget).
    unfold patch_one, patched_names, getitem_ref, relax_entry, needs_patch.
    simpl. rewrite Hget. simpl.
    destruct entry as [| | | | | |m]; simpl; try reflexivity.
    destruct (dict_get TARGET m) as [v|] eqn:Ht; simpl.
    + destruct (py_eq_False v) eqn:Hv; simpl; [reflexivity|].
      now rewrite app_nil_r, dict_set_same.
    + now rewrite app_nil_r, dict_set_same.
  - rewrite (relax_one_absent _ _ Hd Hget).
    unfold patch_one, patched_names. simpl. rewrite Hget. simpl.
    now rewrite app_nil_r.
Qed.

End LoopFacts.

Section LoopDict.

Implicit Types (d : list (string * pyval)) (p names : list string).

Lemma relax_schemas_nil d :
  distinct (map fst d) = true -> relax_schemas [] (PDict d) = PDict d.
Proof. intros Hd. now apply map_members_id. Qed.

Lemma relax_entry_dict m : exists m', relax_entry (PDict m) = PDict m'.
Proof. unfold relax_entry. destruct (needs_patch (PDict m)); simpl; eauto. Qed.

Lemma entries_ok_relax names ns schemas :
  entries_ok names (relax_schemas ns schemas) = entries_ok names schemas.
Proof.
  unfold entries_ok, relax_schemas.
  induction names as [|n names IH]; simpl; [reflexivity|].
  rewrite IH, member_map_members. f_equal.
  destruct (member n schemas) as [e|]; simpl; [|reflexivity].
  destruct (mem n ns); [|reflexivity].
  destruct e as [| | | | | |m]; try reflexivity.
  now destruct (relax_entry_dict m) as [m' ->].
Qed.

Lemma relax_schemas_cons name names d :
  mem name names = false -> distinct (map fst d) = true ->
  relax_schemas names (relax_schemas [name] (PDict d))
  = relax_schemas (name :: names) (PDict d).
Proof.
  intros Hn Hd. unfold relax_schemas. rewrite map_members_compose.
  apply map_members_ext; [|assumption].
  intros k v _. simpl. rewrite orb_false_r.
  destruct (String.eqb k name) eqn:E; simpl; [|reflexivity].
  apply String.eqb_eq in E. subst k. now rewrite Hn.
Qed.

Lemma patched_names_relax name names schemas :
  mem name names = false ->
  patched_names names (relax_schemas [name] schemas) = patched_names names schemas.
Proof.
  intros Hn. unfold patched_names. apply filter_ext_in.
  intros n Hin. unfold relax_schemas. rewrite member_map_members.
  destruct (member n schemas) as [e|]; simpl; [|reflexivity].
  rewrite orb_false_r. destruct (String.eqb n name) eqn:E; [|reflexivity].
  apply String.eqb_eq in E. subst n. apply mem_In in Hin. congruence.
Qed.

Lemma patched_names_cons name names schemas :
  patched_names (name :: names) schemas
  = patched_names [name] schemas ++ patched_names names schemas.
Proof.
  unfold patched_names. simpl.
  now destruct (match member name schemas with Some e => needs_patch e | None => false end).
Qed.

(** The whole loop on a dict with distinct keys: it raises exactly when a
    listed name is bound to something that is not an object, and otherwise
    relaxes the listed entries and records those it changed, in list order. *)
Lemma patch_loop_dict names : forall d p,
  distinct (map fst d) = true -> distinct names = true ->
  patch_loop names (PDict d, p)
  = if entries_ok names (PDict d)
    then Ok (relax_schemas names (PDict d), p ++ patched_names names (PDict d))
    else Raise AttributeError.
Proof.
  induction names as [|name names IH]; intros d p Hd Hn.
  - cbn [patch_loop entries_ok patched_names forallb List.filter].
    now rewrite relax_schemas_nil, app_nil_r.
  - simpl in Hn. apply andb_true_iff in Hn as [Hname Hn].
    apply negb_true_iff in Hname.
    cbn [patch_loop]. rewrite patch_one_dict by assumption.
    rewrite <- (relax_schemas_cons name names d Hname Hd).
    rewrite (patched_names_cons name names), app_assoc.
    rewrite <- (patched_names_relax name names (PDict d) Hname).
    change (entries_ok (name :: names) (PDict d))
      with (match dict_get name d with
            | Some (PDict _) | None => true
            | Some _ => false
            end && entries_ok names (PDict d)).
    rewrite <- (entries_ok_relax names [name] (PDict d)).
    assert (exists d1, relax_schemas [name] (PDict d) = PDict d1
                       /\ distinct (map fst d1) = true) as (d1 & -> & Hd1).
    { eexists. split; [reflexivity|]. now rewrite map_map. }
    destruct (dict_get name d) as [[| | | | | |m]|]; simpl; try reflexivity;
      now rewrite IH.
Qed.

End LoopDict.

(** ** The loop on something that is not a dict *)

Section LoopOther.

Implicit Types (s : pyval) (p names : list string).

Lemma patch_one_sequence name s p :
  is_sequence s = true ->
  patch_one name (s, p) = if mentions name s then Raise TypeError else Ok (s, p).
Proof.
  destruct s; try discriminate; intros _; unfold patch_one; simpl.
  - now destruct (str_contains name s).
  - now destruct (existsb (fun x => py_eq_str x name) items).
Qed.

Lemma patch_loop_sequence names : forall s p,
  is_sequence s = true ->
  patch_loop names (s, p)
  = if existsb (fun n => mentions n s) names then Raise TypeError else Ok (s, p).
Proof.
  induction names as [|name names IH]; intros s p Hs; [reflexivity|].
  cbn [patch_loop existsb]. rewrite patch_one_sequence by assumption.
  destruct (mentions name s); [reflexivity|]. simpl. now apply IH.
Qed.

Lemma patch_loop_scalar name names s p :
  is_dict s = false -> is_sequence s = false ->
  patch_loop (name :: names) (s, p) = Raise TypeError.
Proof. destruct s; try discriminate; reflexivity. Qed.

(** Whatever is not a dict comes out of the loop as it went in. *)
Lemma patch_loop_not_dict names s p r :
  is_dict s = false -> patch_loop names (s, p) = Ok r -> r = (s, p).
Proof.
  intros Hd. destruct (is_sequence s) eqn:Hs.
  - rewrite patch_loop_sequence by assumption.
    destruct (existsb _ names); congruence.
  - destruct names as [|name names]; [simpl; congruence|].
    rewrite patch_loop_scalar by assumption. discriminate.
Qed.

End LoopOther.

(** ** [patch_doc] by the shape of the document *)

Section DocFacts.

Implicit Types (top c : list (string * pyval)) (spec s : pyval).

Lemma patch_doc_no_components top :
  dict_get "components" top = None -> patch_doc (PDict top) = Ok (PDict top, []).
Proof. intros H. unfold patch_doc. simpl. rewrite H. reflexivity. Qed.

Lemma patch_doc_bad_components top v :
  dict_get "components" top = Some v -> is_dict v = false ->
  patch_doc (PDict top) = Raise AttributeError.
Proof.
  intros H Hv. unfold patch_doc. simpl. rewrite H.
  destruct v; try discriminate; reflexivity.
Qed.

Lemma patch_doc_no_schemas top c :
  dict_get "components" top = Some (PDict c) -> dict_get "schemas" c = None ->
  patch_doc (PDict top) = Ok (PDict top, []).
Proof.
  intros H Hs. unfold patch_doc. simpl. rewrite H. simpl. rewrite Hs. simpl.
  now rewrite dict_set_same.
Qed.

Lemma patch_doc_attached top c s :
  dict_get "components" top = Some (PDict c) -> dict_get "schemas" c = Some s ->
  patch_doc (PDict top)
  = let* st := patch_loop SCHEMAS_TO_PATCH (s, []) in
    Ok (reattach top c (fst st), snd st).
Proof.
  intros H Hs. unfold patch_doc. simpl get_ref. rewrite H.
  cbn [bind deref get_ref]. rewrite Hs. cbn [bind deref writeback].
  destruct (patch_loop SCHEMAS_TO_PATCH (s, [])) as [[s' patched]|e]; reflexivity.
Qed.

End DocFacts.

Section RelaxDoc.

Implicit Types (top c d : list (string * pyval)) (spec s : pyval).

Lemma wf_distinct d : wf (PDict d) = true -> distinct (map fst d) = true.
Proof. simpl. rewrite andb_true_iff. tauto. Qed.

Lemma at_member_present key f d v :
  distinct (map fst d) = true -> dict_get key d = Some v ->
  at_member key f (PDict d) = PDict (dict_set key (f v) d).
Proof.
  intros Hd Hget. rewrite (dict_set_at_member _ _ _ _ Hd Hget).
  apply map_members_ext; [|assumption].
  intros k x Hk. simpl in Hk.
  destruct (String.eqb k key) eqn:E; [|reflexivity].
  apply String.eqb_eq in E. subst k. congruence.
Qed.

Lemma at_member_absent key f d :
  distinct (map fst d) = true -> dict_get key d = None ->
  at_member key f (PDict d) = PDict d.
Proof.
  intros Hd Hget. apply map_members_id; [|assumption].
  intros k x Hk. simpl in Hk.
  destruct (String.eqb k key) eqn:E; [|reflexivity].
  apply String.eqb_eq in E. subst k. congruence.
Qed.

Lemma relax_doc_attached top c s :
  wf (PDict top) = true ->
  dict_get "components" top = Some (PDict c) -> dict_get "schemas" c = Some s ->
  relax_doc (PDict top) = reattach top c (relax_schemas SCHEMAS_TO_PATCH s).
Proof.
  intros Hwf Hc Hs. unfold relax_doc, reattach.
  rewrite (at_member_present _ _ _ _ (wf_distinct _ Hwf) Hc).
  pose proof (wf_dict_get _ _ _ Hwf Hc) as Hwfc.
  now rewrite (at_member_present _ _ _ _ (wf_distinct _ Hwfc) Hs).
Qed.

Lemma relax_doc_detached spec :
  wf spec = true -> schemas_of spec = None -> relax_doc spec = spec.
Proof.
  intros Hwf. unfold schemas_of, relax_doc.
  destruct spec as [| | | | | |top]; try reflexivity.
  simpl member at 1. destruct (dict_get "components" top) as [comps|] eqn:Hc.
  - intros Hs.
    rewrite (at_member_present _ _ _ _ (wf_distinct _ Hwf) Hc).
    f_equal. rewrite dict_set_same; [reflexivity|]. rewrite Hc. f_equal.
    destruct comps as [| | | | | |c]; try reflexivity.
    symmetry. apply at_member_absent; [|assumption].
    apply wf_distinct. exact (wf_dict_get _ _ _ Hwf Hc).
  - intros _. now apply at_member_absent; [apply wf_distinct|].
Qed.

Lemma relax_schemas_not_dict names s :
  is_dict s = false -> relax_schemas names s = s.
Proof. now destruct s. Qed.

Lemma patched_names_not_dict names s :
  is_dict s = false -> patched_names names s = [].
Proof.
  intros Hs. unfold patched_names.
  induction names as [|n names IH]; simpl; [reflexivity|].
  now destruct s.
Qed.

Lemma reattach_same top c s :
  dict_get "components" top = Some (PDict c) -> dict_get "schemas" c = Some s ->
  reattach top c s = PDict top.
Proof.
  intros Hc Hs. unfold reattach. now rewrite (dict_set_same _ _ _ Hs), dict_set_same.
Qed.

Lemma distinct_SCHEMAS_TO_PATCH : distinct SCHEMAS_TO_PATCH = true.
Proof. reflexivity. Qed.

(** The loop on the object [schemas] of a well-formed document. *)
Lemma patch_loop_spec s s' patched :
  wf s = true ->
  patch_loop SCHEMAS_TO_PATCH (s, []) = Ok (s', patched) ->
  s' = relax_schemas SCHEMAS_TO_PATCH s
  /\ patched = patched_names SCHEMAS_TO_PATCH s.
Proof.
  intros Hwf Hloop. destruct (is_dict s) eqn:Hd.
  - destruct s as [| | | | | |d]; try discriminate.
    rewrite patch_loop_dict in Hloop
      by (try apply wf_distinct; auto using distinct_SCHEMAS_TO_PATCH).
    destruct (entries_ok SCHEMAS_TO_PATCH (PDict d)); [|discriminate].
    injection Hloop as <- <-. auto.
  - apply patch_loop_not_dict in Hloop; [|assumption].
    injection Hloop as -> ->.
    now rewrite relax_schemas_not_dict, patched_names_not_dict.
Qed.

End RelaxDoc.

(** ** Running the patch on its own output *)

Section Again.

Implicit Types (top c d : list (string * pyval)) (spec s : pyval).

Lemma relax_schemas_idem names s :
  wf s = true ->
  relax_schemas names (relax_schemas names s) = relax_schemas names s.
Proof.
  intros Hwf. unfold relax_schemas. rewrite map_members_compose.
  destruct s as [| | | | | |d]; try reflexivity.
  apply map_members_ext; [|now apply wf_distinct].
  intros k v Hk. destruct (mem k names); [|reflexivity].
  apply relax_entry_idem. exact (wf_dict_get _ _ _ Hwf Hk).
Qed.

Lemma patched_names_relaxed names s :
  wf s = true -> patched_names names (relax_schemas names s) = [].
Proof.
  intros Hwf. unfold patched_names.
  assert (forall l, (forall n, In n l -> mem n names = true) ->
            List.filter (fun n => match member n (relax_schemas names s) with
                                  | Some e => needs_patch e
                                  | None => false
                                  end) l = []) as H.
  { induction l as [|n l IH]; intros Hl; [reflexivity|]. simpl.
    rewrite IH by (intros; apply Hl; now right).
    unfold relax_schemas at 1. rewrite member_map_members.
    rewrite (Hl n) by now left.
    destruct (member n s) as [e|] eqn:He; simpl; [|reflexivity].
    rewrite needs_patch_relax; [reflexivity|].
    destruct s; try discriminate. exact (wf_dict_get _ _ _ Hwf He). }
  apply H. intros n. apply mem_In.
Qed.

Lemma patch_loop_again s s' patched :
  wf s = true ->
  patch_loop SCHEMAS_TO_PATCH (s, []) = Ok (s', patched) ->
  patch_loop SCHEMAS_TO_PATCH (s', []) = Ok (s', []).
Proof.
  intros Hwf Hloop. destruct (is_dict s) eqn:Hd.
  - pose proof (patch_loop_spec _ _ _ Hwf Hloop) as [-> _].
    destruct s as [| | | | | |d]; try discriminate.
    rewrite patch_loop_dict in Hloop
      by (try apply wf_distinct; auto using distinct_SCHEMAS_TO_PATCH).
    destruct (entries_ok SCHEMAS_TO_PATCH (PDict d)) eqn:Hok; [|discriminate].
    clear Hloop.
    assert (exists d1, relax_schemas SCHEMAS_TO_PATCH (PDict d) = PDict d1
                       /\ distinct (map fst d1) = true) as (d1 & E & Hd1).
    { eexists. split; [reflexivity|]. rewrite map_map. now apply wf_distinct. }
    rewrite E. rewrite patch_loop_dict by auto using distinct_SCHEMAS_TO_PATCH.
    rewrite <- E, entries_ok_relax, Hok.
    now rewrite relax_schemas_idem, patched_names_relaxed.
  - pose proof (patch_loop_not_dict _ _ _ _ Hd Hloop) as [= -> ->]. exact Hloop.
Qed.

(** In memory, a second pass finds nothing to patch and changes nothing. *)
Lemma patch_doc_again spec spec' patched :
  wf spec = true ->
  patch_doc spec = Ok (spec', patched) ->
  patch_doc spec' = Ok (spec', []).
Proof.
  intros Hwf Hrun.
  destruct spec as [| | | | | |top]; try discriminate.
  destruct (dict_get "components" top) as [comps|] eqn:Hc.
  - destruct comps as [| | | | | |c];
      try (rewrite (patch_doc_bad_components _ _ Hc) in Hrun by reflexivity;
           discriminate).
    destruct (dict_get "schemas" c) as [s|] eqn:Hs.
    + rewrite (patch_doc_attached _ _ _ Hc Hs) in Hrun.
      destruct (patch_loop SCHEMAS_TO_PATCH (s, [])) as [[s1 p1]|] eqn:Hloop;
        [|discriminate].
      simpl in Hrun. injection Hrun as <- <-.
      assert (wf s = true) as Hwfs.
      { eapply wf_dict_get; [|exact Hs]. eapply wf_dict_get; eauto. }
      unfold reattach at 1.
      erewrite patch_doc_attached;
        [|apply dict_get_set_eq|apply dict_get_set_eq].
      rewrite (patch_loop_again _ _ _ Hwfs Hloop). simpl.
      rewrite reattach_same; [reflexivity|apply dict_get_set_eq..].
    + rewrite (patch_doc_no_schemas _ _ Hc Hs) in Hrun. injection Hrun as <- <-.
      now apply patch_doc_no_schemas with c.
    - rewrite (patch_doc_no_components _ Hc) in Hrun. injection Hrun as <- <-.
      now apply patch_doc_no_components.
Qed.

(** [patch_doc] on every well-formed document. *)
Lemma patch_doc_total spec :
  wf spec = true ->
  patch_doc spec
  = if patchable spec
    then Ok (relax_doc spec,
             patched_names SCHEMAS_TO_PATCH (schemas_or_empty spec))
    else Raise (failure spec).
Proof.
  intros Hwf.
  destruct spec as [| | | | | |top]; try reflexivity.
  unfold patchable, failure, schemas_or_empty, schemas_of. cbn [member].
  destruct (dict_get "components" top) as [comps|] eqn:Hc.
  - destruct comps as [| | | | | |c];
      try (rewrite (patch_doc_bad_components _ _ Hc) by reflexivity;
           reflexivity).
    cbn [member]. destruct (dict_get "schemas" c) as [s|] eqn:Hs.
    + rewrite (patch_doc_attached _ _ _ Hc Hs).
      rewrite (relax_doc_attached _ _ _ Hwf Hc Hs).
      assert (wf s = true) as Hwfs.
      { eapply wf_dict_get; [|exact Hs]. eapply wf_dict_get; eauto. }
      destruct (is_sequence s) eqn:Hseq.
      * rewrite patch_loop_sequence by assumption.
        rewrite relax_schemas_not_dict, patched_names_not_dict
          by (now destruct s).
        destruct (existsb _ SCHEMAS_TO_PATCH); now destruct s.
      * destruct s as [| | | | | |d]; try discriminate; try reflexivity.
        rewrite patch_loop_dict
          by (try apply wf_distinct; auto using distinct_SCHEMAS_TO_PATCH).
        now destruct (entries_ok SCHEMAS_TO_PATCH (PDict d)).
    + rewrite (patch_doc_no_schemas _ _ Hc Hs).
      rewrite relax_doc_detached; [reflexivity|assumption|].
      unfold schemas_of. cbn [member]. rewrite Hc. exact Hs.
  - rewrite (patch_doc_no_components _ Hc).
    rewrite relax_doc_detached; [reflexivity|assumption|].
    unfold schemas_of. cbn [member]. now rewrite Hc.
Qed.

(** [patch_doc] refines [relax_doc]: when it returns, the document is the
    relaxed one and [patched] lists the entries that needed the patch. *)
Lemma patch_doc_spec spec spec' patched :
  wf spec = true ->
  patch_doc spec = Ok (spec', patched) ->
  spec' = relax_doc spec
  /\ patched = patched_names SCHEMAS_TO_PATCH (schemas_or_empty spec).
Proof.
  intros Hwf Hrun. rewrite (patch_doc_total _ Hwf) in Hrun.
  destruct (patchable spec); [|discriminate]. split; congruence.
Qed.

End Again.

(** ** Entries of the relaxed document *)

Section Entries.

Implicit Types (spec entry : pyval) (name : string).

Lemma member_at_member key f obj :
  member key (at_member key f obj) = option_map f (member key obj).
Proof.
  unfold at_member. rewrite member_map_members. now rewrite String.eqb_refl.
Qed.

Lemma member_at_member_ne key k f obj :
  k <> key -> member k (at_member key f obj) = member k obj.
Proof.
  intros Hne. unfold at_member. rewrite member_map_members.
  apply String.eqb_neq in Hne. rewrite Hne. now destruct (member k obj).
Qed.

Lemma schemas_of_relax_doc spec :
  schemas_of (relax_doc spec)
  = option_map (relax_schemas SCHEMAS_TO_PATCH) (schemas_of spec).
Proof.
  unfold schemas_of, relax_doc. rewrite member_at_member.
  destruct (member "components" spec) as [comps|]; simpl; [|reflexivity].
  apply member_at_member.
Qed.

Lemma schema_entry_relax_doc spec name :
  schema_entry (relax_doc spec) name
  = option_map (fun e => if mem name SCHEMAS_TO_PATCH then relax_entry e else e)
               (schema_entry spec name).
Proof.
  unfold schema_entry. rewrite schemas_of_relax_doc.
  destruct (schemas_of spec) as [s|]; simpl; [|reflexivity].
  apply member_map_members.
Qed.

Lemma member_drop_target entry k :
  k <> TARGET -> member k (drop_target entry) = member k entry.
Proof.
  intros Hne. destruct entry; try reflexivity. simpl.
  apply dict_get_del_ne. congruence.
Qed.

Lemma member_relax_entry entry k :
  k <> TARGET -> member k (relax_entry entry) = member k entry.
Proof.
  intros Hne. unfold relax_entry.
  destruct (needs_patch entry); [now apply member_drop_target | reflexivity].
Qed.

Lemma wf_schema_entry spec name entry :
  wf spec = true -> schema_entry spec name = Some entry -> wf entry = true.
Proof.
  unfold schema_entry, schemas_of. intros Hwf.
  destruct spec as [| | | | | |top]; try discriminate. simpl member at 1.
  destruct (dict_get "components" top) as [[| | | | | |c]|] eqn:Hc;
    try discriminate.
  simpl member at 1.
  destruct (dict_get "schemas" c) as [[| | | | | |d]|] eqn:Hs;
    try discriminate.
  simpl. intros He.
  eapply wf_dict_get; [|exact He].
  eapply wf_dict_get; [|exact Hs].
  eapply wf_dict_get; eauto.
Qed.

Lemma removed_iff_needed entry :
  wf entry = true ->
  has_target entry && negb (has_target (relax_entry entry)) = needs_patch entry.
Proof.
  intros Hwf. unfold relax_entry. destruct (needs_patch entry) eqn:E.
  - now rewrite (needs_patch_has_target _ E), has_target_drop.
  - now destruct (has_target entry).
Qed.

Lemma schema_entry_schemas_or_empty spec name :
  schema_entry spec name = member name (schemas_or_empty spec).
Proof.
  unfold schema_entry, schemas_or_empty. now destruct (schemas_of spec).
Qed.

(** The names recorded in [patched] are the listed names whose entry lost
    the target field. *)
Lemma patched_names_removed spec :
  wf spec = true ->
  patched_names SCHEMAS_TO_PATCH (schemas_or_empty spec)
  = removed_names spec (relax_doc spec).
Proof.
  intros Hwf. unfold patched_names, removed_names. apply filter_ext_in.
  intros n Hin. rewrite schema_entry_relax_doc, <- schema_entry_schemas_or_empty.
  apply mem_In in Hin. rewrite Hin.
  destruct (schema_entry spec n) as [e|] eqn:He; simpl; [|reflexivity].
  symmetry. apply removed_iff_needed. exact (wf_schema_entry _ _ _ Hwf He).
Qed.

Lemma wf_map_members f obj :
  (forall k v, wf v = true -> wf (f k v) = true) ->
  wf obj = true -> wf (map_members f obj) = true.
Proof.
  intros Hf. destruct obj as [| | | | | |d]; try (intros; assumption).
  simpl. rewrite !andb_true_iff, map_map. intros [Hk Hd]. split; [exact Hk|].
  clear Hk. induction d as [|[k x] d IH]; simpl in *; [reflexivity|].
  apply andb_true_iff in Hd as [Hx Hd]. now rewrite Hf, IH.
Qed.

(** The document written is again one [json.load] can return. *)
Lemma wf_relax_doc spec : wf spec = true -> wf (relax_doc spec) = true.
Proof.
  unfold relax_doc, at_member, relax_schemas.
  apply wf_map_members. intros k v Hv.
  destruct (String.eqb k "components"); [|assumption].
  apply wf_map_members; [|assumption]. intros k' v' Hv'.
  destruct (String.eqb k' "schemas"); [|assumption].
  apply wf_map_members; [|assumption]. intros n e He.
  destruct (mem n SCHEMAS_TO_PATCH); [now apply wf_relax_entry | assumption].
Qed.

(** An entry is changed exactly when it has the target field and the test
    [== False] holds of its value. *)
Lemma relax_entry_changes_iff entry :
  wf entry = true -> relax_entry entry <> entry <-> needs_patch entry = true.
Proof.
  intros Hwf. unfold relax_entry. destruct (needs_patch entry) eqn:E.
  - split; [reflexivity|]. intros _ Heq.
    pose proof (has_target_drop _ Hwf) as Hdrop. rewrite Heq in Hdrop.
    rewrite (needs_patch_has_target _ E) in Hdrop. discriminate.
  - split; [intros H; now contradict H | discriminate].
Qed.

End Entries.

(** ** The script on a file *)

Section FileFacts.

Implicit Types (w : world) (filepath : string) (f : file) (spec : pyval).

(** [patch_spec] step by step: open for reading, parse, patch in memory,
    open for writing, print. *)
Lemma patch_spec_eq filepath w :
  patch_spec filepath w
  = let w1 := log (OpenRead filepath) w in
    match files w !! filepath with
    | None => (Raise FileNotFoundError, w1)
    | Some f =>
        if readable f then
          match holds f with
          | NotJson => (Raise ValueError, w1)
          | Json spec =>
              match patch_doc spec with
              | Raise e => (Raise e, w1)
              | Ok (spec', patched) =>
                  let w2 := log (OpenWrite filepath) w1 in
                  if writable f then
                    (Ok PNone,
                     World (<[filepath := File true true (Json spec')]> (files w))
                           (stdout w ++ [summary patched]) (opened w2))
                  else (Raise PermissionError, w2)
              end
          end
        else (Raise PermissionError, w1)
    end.
Proof.
  unfold patch_spec, iobind, read_file, lift, write_file, print, ret.
  cbn [files log].
  destruct (files w !! filepath) as [f|] eqn:Hf; [|reflexivity].
  destruct (readable f) eqn:Hr; [|reflexivity].
  destruct (holds f) as [|spec]; [reflexivity|]. cbn [json_load].
  destruct (patch_doc spec) as [[spec' patched]|e]; [|reflexivity].
  cbn [files log]. rewrite Hf.
  destruct (writable f); [|reflexivity].
  now rewrite Hr.
Qed.

End FileFacts.

(** ** The properties of the specification *)

Section Properties.

Implicit Types (w : world) (filepath : string) (f : file) (spec : pyval).

Lemma py_eq_False_iff v :
  py_eq_False v = true
  <-> v = PBool false \/ v = PInt 0 \/ exists s, v = PFloat (S754_zero s).
Proof.
  split.
  - destruct v as [|[]|n|x| | |]; simpl; try discriminate; auto.
    + intros H. apply Z.eqb_eq in H. subst. auto.
    + destruct x as [s|s| |s m e]; try discriminate;
        try (destruct s; discriminate).
      intros _. right. right. now exists s.
  - intros [->|[->|[s ->]]]; reflexivity.
Qed.

Lemma needs_patch_iff entry :
  needs_patch entry = true
  <-> exists v, member TARGET entry = Some v
                /\ (v = PBool false \/ v = PInt 0
                    \/ exists s, v = PFloat (S754_zero s)).
Proof.
  unfold needs_patch. destruct (member TARGET entry) as [v|].
  - rewrite py_eq_False_iff. split; [eauto|]. now intros (v' & [= <-] & H).
  - split; [discriminate|]. now intros (v' & [=] & _).
Qed.

Lemma target_is_false_needs_patch entry :
  target_is_false entry = true -> needs_patch entry = true.
Proof.
  unfold target_is_false, needs_patch.
  destruct (member TARGET entry) as [[|[]| | | | |]|]; try discriminate; reflexivity.
Qed.

(** C1: the script tests the field with [== False], so a numeric zero is
    removed as well.  On the entry
    [{"additionalProperties": 0, "type": "object"}], whose field is present
    and is not the boolean false, the run deletes the field, writes the
    document without it and reports the schema as patched. *)
Theorem zero_additionalProperties_is_removed :
  schema_entry (schemas_doc (card_details (PInt 0))) "CardDetailsInput"
  = Some (PDict [(TARGET, PInt 0); ("type", PStr "object")])
  /\ target_is_false (PDict [(TARGET, PInt 0); ("type", PStr "object")]) = false
  /\ patch_spec OPENAPI (world_with (schemas_doc (card_details (PInt 0))))
     = (Ok PNone,
        World {[ OPENAPI := File true true (Json (schemas_doc card_details_patched)) ]}
              ["Patched schemas: CardDetailsInput"]
              [OpenRead OPENAPI; OpenWrite OPENAPI]).
Proof. repeat split. Qed.

(** The same on the floating-point zeros, and the cases the test tells
    apart as the specification says. *)
Example float_zero_is_removed :
  patch_doc (schemas_doc (card_details (PFloat (S754_zero true))))
  = Ok (schemas_doc card_details_patched, ["CardDetailsInput"]).
Proof. reflexivity. Qed.

Example false_is_removed :
  patch_doc (schemas_doc (card_details (PBool false)))
  = Ok (schemas_doc card_details_patched, ["CardDetailsInput"]).
Proof. reflexivity. Qed.

Example true_is_kept :
  patch_doc (schemas_doc (card_details (PBool true)))
  = Ok (schemas_doc (card_details (PBool true)), []).
Proof. reflexivity. Qed.

Example string_false_is_kept :
  patch_doc (schemas_doc (card_details (PStr "false")))
  = Ok (schemas_doc (card_details (PStr "false")), []).
Proof. reflexivity. Qed.

Example absent_field_is_kept :
  patch_doc (schemas_doc card_details_patched)
  = Ok (schemas_doc card_details_patched, []).
Proof. reflexivity. Qed.

(** The two scenarios of the specification. *)
Example scenario_card_details :
  patch_spec OPENAPI
    (world_with (PDict [("components", PDict [("schemas", card_details (PBool false))])]))
  = (Ok PNone,
     World {[ OPENAPI := File true true
                (Json (PDict [("components", PDict [("schemas", card_details_patched)])])) ]}
           ["Patched schemas: CardDetailsInput"]
           [OpenRead OPENAPI; OpenWrite OPENAPI]).
Proof. reflexivity. Qed.

Example scenario_unrelated :
  patch_spec OPENAPI
    (world_with (PDict [("components", PDict [("schemas", unrelated)])]))
  = (Ok PNone,
     World {[ OPENAPI := File true true
                (Json (PDict [("components", PDict [("schemas", unrelated)])])) ]}
           ["No schemas needed patching"]
           [OpenRead OPENAPI; OpenWrite OPENAPI]).
Proof. reflexivity. Qed.

(** C2: the patcher is idempotent.  For every well-formed document in the
    file, a second run ends as the first did and leaves every file as the
    first run left it; after a first run that completed, the second prints
    that no schema needed patching. *)
Theorem patch_spec_idempotent w filepath f spec r1 w1 r2 w2 :
  files w !! filepath = Some f -> holds f = Json spec -> wf spec = true ->
  patch_spec filepath w = (r1, w1) ->
  patch_spec filepath w1 = (r2, w2) ->
  r2 = r1
  /\ files w2 = files w1
  /\ (r1 = Ok PNone -> stdout w2 = stdout w1 ++ ["No schemas needed patching"]).
Proof.
  intros Hf Hh Hwf. rewrite patch_spec_eq. cbn zeta. rewrite Hf, Hh.
  destruct (readable f) eqn:Hr.
  - destruct (patch_doc spec) as [[spec' patched]|e] eqn:Hrun.
    + destruct (writable f) eqn:Hw.
      * intros [= <- <-]. rewrite patch_spec_eq. cbn [files log].
        rewrite lookup_insert_eq. cbn [readable holds writable].
        rewrite (patch_doc_again _ _ _ Hwf Hrun). cbn zeta.
        rewrite insert_insert_eq. intros [= <- <-]. auto.
      * intros [= <- <-]. rewrite patch_spec_eq. cbn [files log].
        rewrite Hf, Hr, Hh, Hrun, Hw. intros [= <- <-].
        repeat split; discriminate.
    + intros [= <- <-]. rewrite patch_spec_eq. cbn [files log].
      rewrite Hf, Hr, Hh, Hrun. intros [= <- <-]. repeat split; discriminate.
  - intros [= <- <-]. rewrite patch_spec_eq. cbn [files log].
    rewrite Hf, Hr. intros [= <- <-]. repeat split; discriminate.
Qed.

Lemma patch_spec_idempotent_witness :
  fst (patch_spec OPENAPI card_world_once) = fst (patch_spec OPENAPI card_world)
  /\ files card_world_twice = files card_world_once
  /\ (fst (patch_spec OPENAPI card_world) = Ok PNone
      -> stdout card_world_twice
         = stdout card_world_once ++ ["No schemas needed patching"]).
Proof.
  apply (patch_spec_idempotent card_world OPENAPI
           (File true true (Json (schemas_doc (card_details (PBool false)))))
           (schemas_doc (card_details (PBool false)))
           (fst (patch_spec OPENAPI card_world)) card_world_once
           (fst (patch_spec OPENAPI card_world_once)) card_world_twice);
    reflexivity.
Defined.


Lemma patch_spec_stores w filepath spec :
  stores w filepath spec ->
  patch_spec filepath w
  = match patch_doc spec with
    | Ok (spec', patched) =>
        (Ok PNone,
         World (<[filepath := File true true (Json spec')]> (files w))
               (stdout w ++ [summary patched])
               (opened w ++ [OpenRead filepath; OpenWrite filepath]))
    | Raise e => (Raise e, log (OpenRead filepath) w)
    end.
Proof.
  unfold stores. intros Hf. rewrite patch_spec_eq. cbn zeta. rewrite Hf.
  cbn [readable holds writable].
  destruct (patch_doc spec) as [[spec' patched]|e]; [|reflexivity].
  cbn [log opened]. now rewrite <- app_assoc.
Qed.

Lemma patch_spec_loads w filepath spec e :
  loads w filepath spec -> patch_doc spec = Raise e ->
  patch_spec filepath w = (Raise e, log (OpenRead filepath) w).
Proof.
  intros (f & Hf & Hr & Hh) Hrun. rewrite patch_spec_eq. cbn zeta.
  now rewrite Hf, Hr, Hh, Hrun.
Qed.

Lemma stores_loads w filepath spec : stores w filepath spec -> loads w filepath spec.
Proof. intros H. now exists (File true true (Json spec)). Qed.

(** What a completed run did. *)
Lemma patch_spec_inv w filepath v w' :
  patch_spec filepath w = (Ok v, w') ->
  v = PNone
  /\ exists spec spec' patched,
       loads w filepath spec
       /\ patch_doc spec = Ok (spec', patched)
       /\ files w' = <[filepath := File true true (Json spec')]> (files w)
       /\ stdout w' = stdout w ++ [summary patched].
Proof.
  rewrite patch_spec_eq. cbn zeta.
  destruct (files w !! filepath) as [f|] eqn:Hf; [|discriminate].
  destruct (readable f) eqn:Hr; [|discriminate].
  destruct (holds f) as [|spec] eqn:Hh; [discriminate|].
  destruct (patch_doc spec) as [[spec' patched]|e] eqn:Hrun; [|discriminate].
  destruct (writable f); [|discriminate].
  intros [= <- <-]. split; [reflexivity|].
  exists spec, spec', patched.
  split; [now exists f|]. split; [assumption|]. split; reflexivity.
Qed.

Lemma loads_unique w filepath spec spec0 :
  loads w filepath spec -> loads w filepath spec0 -> spec0 = spec.
Proof. intros (f & Hf & _ & Hh) (f0 & Hf0 & _ & Hh0). congruence. Qed.

(** C3: the patch operation returns no list: whenever it returns, it
    returns [None], having overwritten the file with the patched document
    and printed the summary line made from the list of patched names; and it
    does return on every readable and writable file that holds a well-formed
    document the patch applies to. *)
Theorem patch_spec_returns_None w filepath :
  (forall spec,
      stores w filepath spec -> wf spec = true -> patchable spec = true ->
      exists w', patch_spec filepath w = (Ok PNone, w'))
  /\ (forall v w',
        patch_spec filepath w = (Ok v, w') ->
        v = PNone
        /\ exists spec spec' patched,
             loads w filepath spec
             /\ patch_doc spec = Ok (spec', patched)
             /\ files w' = <[filepath := File true true (Json spec')]> (files w)
             /\ stdout w' = stdout w ++ [summary patched]).
Proof.
  split.
  - intros spec Hst Hwf Hp. rewrite (patch_spec_stores _ _ _ Hst).
    rewrite (patch_doc_total _ Hwf), Hp. eauto.
  - apply patch_spec_inv.
Qed.

Lemma patch_spec_returns_None_witness :
  stores (world_with (schemas_doc (card_details (PBool false)))) OPENAPI
         (schemas_doc (card_details (PBool false)))
  /\ exists w', patch_spec OPENAPI (world_with (schemas_doc (card_details (PBool false))))
                = (Ok PNone, w').
Proof.
  split; [reflexivity|].
  apply (proj1 (patch_spec_returns_None
                  (world_with (schemas_doc (card_details (PBool false)))) OPENAPI)
               (schemas_doc (card_details (PBool false))));
    reflexivity.
Defined.

(** C3 as first stated fails on the scenario of the specification: one
    schema is patched, as the summary line shows, and the value returned is
    not the list of its name. *)
Lemma patch_spec_returns_no_list :
  snd (patch_spec OPENAPI (world_with (schemas_doc (card_details (PBool false)))))
  = World {[ OPENAPI := File true true (Json (schemas_doc card_details_patched)) ]}
          ["Patched schemas: CardDetailsInput"]
          [OpenRead OPENAPI; OpenWrite OPENAPI]
  /\ fst (patch_spec OPENAPI (world_with (schemas_doc (card_details (PBool false)))))
     <> Ok (PList [PStr "CardDetailsInput"]).
Proof. split; [reflexivity | discriminate]. Qed.


Lemma not_mem_In (s : string) (l : list string) : mem s l = false <-> ~ In s l.
Proof. rewrite <- mem_In. now destruct (mem s l). Qed.

(** C4: the only change a completed run makes to the document is the
    removal of [additionalProperties] from listed schema entries.  The
    document written is [relax_doc] of the one read, which keeps all keys in
    their order and rewrites listed entries only: every member outside
    [components.schemas] is as it was, every schema that is not listed is as
    it was (whatever its target field), and every schema is either as it was
    or has lost the target field, all its other fields being as they were. *)
Theorem patch_spec_frame w filepath spec v w' :
  loads w filepath spec -> wf spec = true ->
  patch_spec filepath w = (Ok v, w') ->
  files w' = <[filepath := File true true (Json (relax_doc spec))]> (files w)
  /\ (forall k, k <> "components" ->
        member k (relax_doc spec) = member k spec)
  /\ (forall components, member "components" spec = Some components ->
        exists components',
          member "components" (relax_doc spec) = Some components'
          /\ forall k, k <> "schemas" -> member k components' = member k components)
  /\ (forall name, ~ In name SCHEMAS_TO_PATCH ->
        schema_entry (relax_doc spec) name = schema_entry spec name)
  /\ (forall name entry, schema_entry spec name = Some entry ->
        exists entry',
          schema_entry (relax_doc spec) name = Some entry'
          /\ (entry' = entry \/ entry' = drop_target entry)
          /\ forall k, k <> TARGET -> member k entry' = member k entry).
Proof.
  intros Hst Hwf Hrun.
  destruct (patch_spec_inv _ _ _ _ Hrun) as (_ & spec0 & spec' & patched & Hl & Hdoc & Hfiles & _).
  rewrite (loads_unique _ _ _ _ Hst Hl) in Hdoc.
  destruct (patch_doc_spec _ _ _ Hwf Hdoc) as [-> _].
  split; [assumption|]. split; [|split; [|split]].
  - intros k Hk. unfold relax_doc. now apply member_at_member_ne.
  - intros components Hc. unfold relax_doc. rewrite member_at_member, Hc.
    eexists. split; [reflexivity|].
    intros k Hk. now apply member_at_member_ne.
  - intros name Hn. rewrite schema_entry_relax_doc.
    apply not_mem_In in Hn. rewrite Hn.
    now destruct (schema_entry spec name).
  - intros name entry He. rewrite schema_entry_relax_doc, He. cbn [option_map].
    eexists. split; [reflexivity|].
    destruct (mem name SCHEMAS_TO_PATCH); [|now split; [left|]].
    split; [|intros k Hk; now apply member_relax_entry].
    unfold relax_entry. destruct (needs_patch entry); auto.
Qed.

Lemma patch_spec_frame_witness :
  schema_entry (relax_doc (schemas_doc two_schemas)) "UnrelatedSchema"
  = Some (PDict [(TARGET, PBool false)])
  /\ exists entry',
       schema_entry (relax_doc (schemas_doc two_schemas)) "CardDetailsInput"
       = Some entry'
       /\ (entry' = PDict [(TARGET, PBool false); ("type", PStr "object")]
           \/ entry' = drop_target (PDict [(TARGET, PBool false); ("type", PStr "object")]))
       /\ forall k, k <> TARGET ->
            member k entry'
            = member k (PDict [(TARGET, PBool false); ("type", PStr "object")]).
Proof.
  pose proof (patch_spec_frame (world_with (schemas_doc two_schemas)) OPENAPI
                (schemas_doc two_schemas) PNone
                (snd (patch_spec OPENAPI (world_with (schemas_doc two_schemas))))
                (ex_intro _ _ (conj eq_refl (conj eq_refl eq_refl)))
                eq_refl eq_refl) as (_ & _ & _ & Hother & Hentry).
  split.
  - rewrite Hother; [reflexivity|].
    simpl. intros [H|[H|[H|[H|[]]]]]; discriminate.
  - apply Hentry. reflexivity.
Defined.

Lemma summary_report patched : summary patched = report patched.
Proof. now destruct patched. Qed.

(** C5: the printed summary reflects the mutations performed.  The line a
    completed run prints is made from the listed names whose entry had the
    target field before the run and has it no more after, in list order:
    their comma-joined list after "Patched schemas: ", or the fixed message
    when there is none. *)
Theorem summary_lists_removed_fields w filepath spec v w' :
  loads w filepath spec -> wf spec = true ->
  patch_spec filepath w = (Ok v, w') ->
  exists spec',
    files w' !! filepath = Some (File true true (Json spec'))
    /\ stdout w' = stdout w ++ [report (removed_names spec spec')]
    /\ report (removed_names spec spec')
       = match removed_names spec spec' with
         | [] => "No schemas needed patching"
         | names => ("Patched schemas: " ++ String.concat ", " names)%string
         end.
Proof.
  intros Hst Hwf Hrun.
  destruct (patch_spec_inv _ _ _ _ Hrun)
    as (_ & spec0 & spec' & patched & Hl & Hdoc & Hfiles & Hout).
  rewrite (loads_unique _ _ _ _ Hst Hl) in Hdoc.
  destruct (patch_doc_spec _ _ _ Hwf Hdoc) as [-> ->].
  exists (relax_doc spec). split; [|split].
  - rewrite Hfiles. apply lookup_insert_eq.
  - now rewrite Hout, summary_report, patched_names_removed.
  - now destruct (removed_names spec (relax_doc spec)).
Qed.

Lemma summary_lists_removed_fields_witness :
  exists spec',
    files (snd (patch_spec OPENAPI (world_with (schemas_doc three_schemas)))) !! OPENAPI
    = Some (File true true (Json spec'))
    /\ stdout (snd (patch_spec OPENAPI (world_with (schemas_doc three_schemas))))
       = [] ++ [report (removed_names (schemas_doc three_schemas) spec')]
    /\ report (removed_names (schemas_doc three_schemas) spec')
       = match removed_names (schemas_doc three_schemas) spec' with
         | [] => "No schemas needed patching"
         | names => ("Patched schemas: " ++ String.concat ", " names)%string
         end.
Proof.
  exact (summary_lists_removed_fields
           (world_with (schemas_doc three_schemas)) OPENAPI
           (schemas_doc three_schemas) PNone
           (snd (patch_spec OPENAPI (world_with (schemas_doc three_schemas))))
           (ex_intro _ _ (conj eq_refl (conj eq_refl eq_refl)))
           eq_refl eq_refl).
Defined.

Example summary_in_list_order :
  stdout (snd (patch_spec OPENAPI (world_with (schemas_doc three_schemas))))
  = ["Patched schemas: AIIdentificationInput, IdentifyCardResponseInput"].
Proof. reflexivity. Qed.


Lemma patch_loop_unlisted names : forall d p,
  forallb (fun n => negb (mem n (map fst d))) names = true ->
  patch_loop names (PDict d, p) = Ok (PDict d, p).
Proof.
  induction names as [|n names IH]; intros d p H; [reflexivity|].
  simpl in H. apply andb_true_iff in H as [Hn H].
  rewrite mem_keys_get in Hn.
  cbn [patch_loop]. unfold patch_one. simpl.
  destruct (dict_get n d); [discriminate|]. simpl. now apply IH.
Qed.

Lemma patch_doc_nothing_to_do spec :
  is_dict spec = true -> schemas_absent spec || none_listed spec = true ->
  patch_doc spec = Ok (spec, []).
Proof.
  destruct spec as [| | | | | |top]; try discriminate. intros _.
  unfold schemas_absent, none_listed, schemas_of. cbn [member].
  destruct (dict_get "components" top) as [comps|] eqn:Hc;
    [|intros _; now apply patch_doc_no_components].
  destruct comps as [| | | | | |c]; try discriminate. cbn [member is_dict andb].
  destruct (dict_get "schemas" c) as [s|] eqn:Hs;
    [|intros _; now apply patch_doc_no_schemas with c].
  cbn [orb]. destruct s as [| | | | | |d]; try discriminate. intros Hd.
  rewrite (patch_doc_attached _ _ _ Hc Hs), patch_loop_unlisted by assumption.
  simpl. now rewrite reattach_same.
Qed.

Lemma main_two prog filepath w : main [prog; filepath] w = patch_spec filepath w.
Proof. reflexivity. Qed.

Lemma run_main argv w r w' : main argv w = (r, w') -> run argv w = (exit_status r, w').
Proof. unfold run. now intros ->. Qed.

(** C6: when [components.schemas] is absent, or is a mapping with none of
    the listed names, the run on a document whose root is an object completes
    with status 0, patches nothing, writes the document back as it was and
    prints that no schema needed patching. *)
Theorem missing_schemas_tolerated prog w filepath spec :
  stores w filepath spec -> is_dict spec = true ->
  schemas_absent spec || none_listed spec = true ->
  patch_doc spec = Ok (spec, [])
  /\ run [prog; filepath] w
     = (0%Z, World (files w) (stdout w ++ ["No schemas needed patching"])
                   (opened w ++ [OpenRead filepath; OpenWrite filepath])).
Proof.
  intros Hst Hd Habs.
  pose proof (patch_doc_nothing_to_do _ Hd Habs) as Hdoc.
  split; [assumption|].
  apply (run_main _ _ (Ok PNone)). rewrite main_two.
  rewrite (patch_spec_stores _ _ _ Hst), Hdoc. cbn [summary].
  now rewrite insert_id.
Qed.

Lemma missing_schemas_tolerated_witness :
  run [PROGRAM; OPENAPI] (world_with (PDict [("openapi", PStr "3.1.0")]))
  = (0%Z, World {[ OPENAPI := File true true (Json (PDict [("openapi", PStr "3.1.0")])) ]}
                ["No schemas needed patching"]
                [OpenRead OPENAPI; OpenWrite OPENAPI])
  /\ run [PROGRAM; OPENAPI] (world_with (schemas_doc unrelated))
     = (0%Z, World {[ OPENAPI := File true true (Json (schemas_doc unrelated)) ]}
                   ["No schemas needed patching"]
                   [OpenRead OPENAPI; OpenWrite OPENAPI]).
Proof.
  split.
  - exact (proj2 (missing_schemas_tolerated PROGRAM
                    (world_with (PDict [("openapi", PStr "3.1.0")])) OPENAPI
                    (PDict [("openapi", PStr "3.1.0")]) eq_refl eq_refl eq_refl)).
  - exact (proj2 (missing_schemas_tolerated PROGRAM
                    (world_with (schemas_doc unrelated)) OPENAPI
                    (schemas_doc unrelated) eq_refl eq_refl eq_refl)).
Defined.

(** C7: a [components] or [schemas] entry that is present but not an object
    is not treated as a missing one.  A [components] that is not an object
    ends the run with an uncaught [AttributeError]; a [schemas] that is not
    an object ends it with an uncaught [TypeError], unless it is an array or
    a string that holds none of the listed names (as an item, as a
    substring), in which case the run completes as on a missing entry.  A
    failed run writes nothing. *)
Theorem malformed_entry_outcome w filepath spec :
  stores w filepath spec -> is_dict spec = true ->
  (forall components,
      member "components" spec = Some components -> is_dict components = false ->
      patch_spec filepath w = (Raise AttributeError, log (OpenRead filepath) w))
  /\ (forall schemas,
        schemas_of spec = Some schemas -> is_dict schemas = false ->
        patch_spec filepath w
        = if is_sequence schemas
             && negb (existsb (fun n => mentions n schemas) SCHEMAS_TO_PATCH)
          then (Ok PNone,
                World (files w) (stdout w ++ ["No schemas needed patching"])
                      (opened w ++ [OpenRead filepath; OpenWrite filepath]))
          else (Raise TypeError, log (OpenRead filepath) w)).
Proof.
  intros Hst Hd. destruct spec as [| | | | | |top]; try discriminate.
  rewrite (patch_spec_stores _ _ _ Hst). split.
  - intros comps Hc Hcd. simpl in Hc.
    now rewrite (patch_doc_bad_components _ _ Hc Hcd).
  - intros s. unfold schemas_of. cbn [member].
    destruct (dict_get "components" top) as [comps|] eqn:Hc; [|discriminate].
    destruct comps as [| | | | | |c]; try discriminate. cbn [member].
    intros Hs Hsd. rewrite (patch_doc_attached _ _ _ Hc Hs).
    destruct (is_sequence s) eqn:Hseq.
    + rewrite patch_loop_sequence by assumption.
      destruct (existsb _ SCHEMAS_TO_PATCH); [reflexivity|]. simpl.
      rewrite reattach_same by assumption. now rewrite insert_id.
    + now destruct s.
Qed.

Lemma malformed_entry_outcome_witness :
  patch_spec OPENAPI (world_with (schemas_doc (PInt 7)))
  = (Raise TypeError, log (OpenRead OPENAPI) (world_with (schemas_doc (PInt 7))))
  /\ patch_spec OPENAPI (world_with (schemas_doc (PList [PStr "CardDetailsInput"])))
     = (Raise TypeError,
        log (OpenRead OPENAPI) (world_with (schemas_doc (PList [PStr "CardDetailsInput"]))))
  /\ patch_spec OPENAPI (world_with (schemas_doc (PList [PStr "Other"])))
     = (Ok PNone,
        World {[ OPENAPI := File true true (Json (schemas_doc (PList [PStr "Other"]))) ]}
              ["No schemas needed patching"]
              [OpenRead OPENAPI; OpenWrite OPENAPI]).
Proof.
  split; [|split].
  - exact (proj2 (malformed_entry_outcome (world_with (schemas_doc (PInt 7)))
                    OPENAPI (schemas_doc (PInt 7)) eq_refl eq_refl)
                 (PInt 7) eq_refl eq_refl).
  - exact (proj2 (malformed_entry_outcome
                    (world_with (schemas_doc (PList [PStr "CardDetailsInput"])))
                    OPENAPI (schemas_doc (PList [PStr "CardDetailsInput"]))
                    eq_refl eq_refl)
                 (PList [PStr "CardDetailsInput"]) eq_refl eq_refl).
  - exact (proj2 (malformed_entry_outcome
                    (world_with (schemas_doc (PList [PStr "Other"])))
                    OPENAPI (schemas_doc (PList [PStr "Other"])) eq_refl eq_refl)
                 (PList [PStr "Other"]) eq_refl eq_refl).
Defined.

(** C7 as first stated fails on [{"components": []}]: the run ends with an
    uncaught error and status 1, where the run on [{}] completes. *)
Lemma array_components_is_an_error :
  is_dict (PList []) = false
  /\ run [PROGRAM; OPENAPI] (world_with (PDict [("components", PList [])]))
     = (1%Z, World {[ OPENAPI := File true true (Json (PDict [("components", PList [])])) ]}
                   [] [OpenRead OPENAPI])
  /\ fst (main [PROGRAM; OPENAPI] (world_with (PDict [("components", PList [])])))
     = Raise AttributeError
  /\ fst (main [PROGRAM; OPENAPI] (world_with (PDict []))) = Ok PNone.
Proof. repeat split. Qed.


(** C8: with an argument count other than one (the program name not
    counted) the process prints the usage message on standard output and
    exits with status 1; it opens no file and every file is as before. *)
Theorem usage_error prog args w :
  length args <> 1 ->
  run (prog :: args) w
  = (1%Z, World (files w) (stdout w ++ [USAGE]) (opened w)).
Proof.
  intros Hlen. destruct args as [|a [|b rest]]; try reflexivity.
  now contradict Hlen.
Qed.

Lemma usage_error_witness :
  run [PROGRAM] (world_with (schemas_doc (card_details (PBool false))))
  = (1%Z, World {[ OPENAPI := File true true (Json (schemas_doc (card_details (PBool false)))) ]}
                ["Usage: patch-openapi-spec.py <path-to-openapi.json>"] [])
  /\ run [PROGRAM; OPENAPI; "extra"] (world_with (schemas_doc (card_details (PBool false))))
     = (1%Z, World {[ OPENAPI := File true true (Json (schemas_doc (card_details (PBool false)))) ]}
                   ["Usage: patch-openapi-spec.py <path-to-openapi.json>"] []).
Proof.
  split.
  - apply (usage_error PROGRAM []). simpl. lia.
  - apply (usage_error PROGRAM [OPENAPI; "extra"]). simpl. lia.
Defined.

(** C9: when the file is missing, cannot be read or does not parse, the
    run ends with an uncaught exception and exit status 1, which is not 0;
    the file is opened for reading only, nothing is written or printed and
    every file is as before. *)
Theorem load_failure_writes_nothing prog filepath w :
  load_fails w filepath ->
  exists e,
    main [prog; filepath] w
    = (Raise e, World (files w) (stdout w) (opened w ++ [OpenRead filepath]))
    /\ (e = FileNotFoundError \/ e = PermissionError \/ e = ValueError)
    /\ run [prog; filepath] w
       = (1%Z, World (files w) (stdout w) (opened w ++ [OpenRead filepath]))
    /\ 1%Z <> 0%Z.
Proof.
  intros Hfail.
  assert (exists e, patch_spec filepath w = (Raise e, log (OpenRead filepath) w)
                    /\ (e = FileNotFoundError \/ e = PermissionError
                        \/ e = ValueError)) as (e & Hrun & He).
  { rewrite patch_spec_eq. cbn zeta.
    destruct Hfail as [Hf|(f & Hf & [Hr|Hh])]; rewrite Hf.
    - eauto.
    - rewrite Hr. eauto 6.
    - rewrite Hh. destruct (readable f); eauto 6. }
  exists e. rewrite main_two. split; [exact Hrun|]. split; [exact He|].
  split; [|discriminate].
  rewrite (run_main _ _ (Raise e) (log (OpenRead filepath) w))
    by (now rewrite main_two).
  destruct He as [->|[->| ->]]; reflexivity.
Qed.

Lemma load_failure_writes_nothing_witness :
  (exists e,
      main [PROGRAM; "missing.json"] (one_file (File true true NotJson))
      = (Raise e, World {[ OPENAPI := File true true NotJson ]} []
                        ([] ++ [OpenRead "missing.json"]))
      /\ (e = FileNotFoundError \/ e = PermissionError \/ e = ValueError)
      /\ run [PROGRAM; "missing.json"] (one_file (File true true NotJson))
         = (1%Z, World {[ OPENAPI := File true true NotJson ]} []
                       ([] ++ [OpenRead "missing.json"]))
      /\ 1%Z <> 0%Z)
  /\ (exists e,
        main [PROGRAM; OPENAPI] (one_file (File true true NotJson))
        = (Raise e, World {[ OPENAPI := File true true NotJson ]} []
                          ([] ++ [OpenRead OPENAPI]))
        /\ (e = FileNotFoundError \/ e = PermissionError \/ e = ValueError)
        /\ run [PROGRAM; OPENAPI] (one_file (File true true NotJson))
           = (1%Z, World {[ OPENAPI := File true true NotJson ]} []
                         ([] ++ [OpenRead OPENAPI]))
        /\ 1%Z <> 0%Z).
Proof.
  split.
  - apply (load_failure_writes_nothing PROGRAM "missing.json"
             (one_file (File true true NotJson))).
    left. reflexivity.
  - apply (load_failure_writes_nothing PROGRAM OPENAPI
             (one_file (File true true NotJson))).
    right. exists (File true true NotJson). split; [reflexivity|]. now right.
Defined.

(** The file is opened for writing only once it was read and parsed. *)
Lemma write_follows_parse filepath w r w' :
  patch_spec filepath w = (r, w') ->
  opened w' = opened w ++ [OpenRead filepath]
  \/ (opened w' = opened w ++ [OpenRead filepath; OpenWrite filepath]
      /\ exists spec, loads w filepath spec).
Proof.
  rewrite patch_spec_eq. cbn zeta.
  destruct (files w !! filepath) as [f|] eqn:Hf; [|intros [= <- <-]; now left].
  destruct (readable f) eqn:Hr; [|intros [= <- <-]; now left].
  destruct (holds f) as [|spec] eqn:Hh; [intros [= <- <-]; now left|].
  destruct (patch_doc spec) as [[spec' patched]|e]; [|intros [= <- <-]; now left].
  destruct (writable f); intros [= <- <-]; right; cbn [log opened];
    rewrite <- app_assoc; (split; [reflexivity|]); exists spec, f; auto.
Qed.

Lemma entries_ok_bad names d name entry :
  In name names -> dict_get name d = Some entry -> is_dict entry = false ->
  entries_ok names (PDict d) = false.
Proof.
  intros Hin Hget He. unfold entries_ok.
  induction names as [|n names IH]; [destruct Hin|].
  cbn [forallb]. destruct Hin as [->|Hin].
  - cbn [member]. rewrite Hget. now destruct entry.
  - rewrite IH by assumption. apply andb_false_r.
Qed.

(** C10: a listed name bound to something that is not an object is not
    skipped: the run ends with an uncaught [AttributeError] and status 1,
    and the file is neither written nor opened for writing. *)
Theorem non_object_entry_is_an_error prog w filepath spec d name entry :
  loads w filepath spec -> wf spec = true ->
  schemas_of spec = Some (PDict d) ->
  In name SCHEMAS_TO_PATCH -> dict_get name d = Some entry ->
  is_dict entry = false ->
  main [prog; filepath] w
  = (Raise AttributeError,
     World (files w) (stdout w) (opened w ++ [OpenRead filepath]))
  /\ run [prog; filepath] w
     = (1%Z, World (files w) (stdout w) (opened w ++ [OpenRead filepath])).
Proof.
  intros Hl Hwf Hs Hin Hget He.
  assert (patch_doc spec = Raise AttributeError) as Hdoc.
  { rewrite (patch_doc_total _ Hwf). unfold failure. rewrite Hs.
    replace (patchable spec) with false; [reflexivity|].
    unfold schemas_of in Hs.
    destruct spec as [| | | | | |top]; try discriminate. cbn [member] in Hs.
    unfold patchable.
    destruct (dict_get "components" top) as [[| | | | | |c]|]; try discriminate.
    cbn [member] in Hs. rewrite Hs. symmetry. now apply entries_ok_bad with name entry. }
  assert (main [prog; filepath] w
          = (Raise AttributeError, log (OpenRead filepath) w)) as Hmain.
  { rewrite main_two. now apply patch_spec_loads with spec. }
  split; [exact Hmain|]. now rewrite (run_main _ _ _ _ Hmain).
Qed.

Lemma non_object_entry_is_an_error_witness :
  main [PROGRAM; OPENAPI] (world_with (schemas_doc (PDict [("CardDetailsInput", PBool false)])))
  = (Raise AttributeError,
     World {[ OPENAPI := File true true
                (Json (schemas_doc (PDict [("CardDetailsInput", PBool false)]))) ]}
           [] ([] ++ [OpenRead OPENAPI]))
  /\ run [PROGRAM; OPENAPI] (world_with (schemas_doc (PDict [("CardDetailsInput", PBool false)])))
     = (1%Z,
        World {[ OPENAPI := File true true
                   (Json (schemas_doc (PDict [("CardDetailsInput", PBool false)]))) ]}
              [] ([] ++ [OpenRead OPENAPI])).
Proof.
  apply (non_object_entry_is_an_error PROGRAM
           (world_with (schemas_doc (PDict [("CardDetailsInput", PBool false)])))
           OPENAPI (schemas_doc (PDict [("CardDetailsInput", PBool false)]))
           [("CardDetailsInput", PBool false)] "CardDetailsInput" (PBool false)).
  - eexists. split; [reflexivity|]. split; reflexivity.
  - reflexivity.
  - reflexivity.
  - simpl. auto.
  - reflexivity.
  - reflexivity.
Defined.

End Properties.

(** ** Further properties of the script *)

Section Further.

Implicit Types (w : world) (filepath : string) (f : file) (spec : pyval).






(** X2: a document whose root is not an object (an array, a string, a
    number, [null]) ends the run with an uncaught [AttributeError] and
    status 1; nothing is written or printed. *)
Theorem root_not_object_is_an_error prog w filepath spec :
  loads w filepath spec -> is_dict spec = false ->
  main [prog; filepath] w
  = (Raise AttributeError,
     World (files w) (stdout w) (opened w ++ [OpenRead filepath]))
  /\ run [prog; filepath] w
     = (1%Z, World (files w) (stdout w) (opened w ++ [OpenRead filepath])).
Proof.
  intros Hl Hd.
  assert (patch_doc spec = Raise AttributeError) as Hdoc
    by (destruct spec; try discriminate; reflexivity).
  assert (main [prog; filepath] w
          = (Raise AttributeError, log (OpenRead filepath) w)) as Hmain.
  { rewrite main_two. now apply patch_spec_loads with spec. }
  split; [exact Hmain|]. now rewrite (run_main _ _ _ _ Hmain).
Qed.

Lemma root_not_object_is_an_error_witness :
  main [PROGRAM; OPENAPI] (world_with (PList [PDict []]))
  = (Raise AttributeError,
     World {[ OPENAPI := File true true (Json (PList [PDict []])) ]}
           [] ([] ++ [OpenRead OPENAPI]))
  /\ run [PROGRAM; OPENAPI] (world_with (PList [PDict []]))
     = (1%Z, World {[ OPENAPI := File true true (Json (PList [PDict []])) ]}
                   [] ([] ++ [OpenRead OPENAPI])).
Proof.
  apply (root_not_object_is_an_error PROGRAM (world_with (PList [PDict []]))
           OPENAPI (PList [PDict []])).
  - eexists. split; [reflexivity|]. split; reflexivity.
  - reflexivity.
Defined.

(** X3: the file is opened for writing after the patch in memory and before
    the summary is printed.  When that open fails, on a document the patch
    applies to, the run ends with an uncaught [PermissionError] and status
    1: the file is as it was and no summary line is printed. *)
Theorem unwritable_file_prints_nothing prog w filepath f spec :
  files w !! filepath = Some f -> readable f = true -> writable f = false ->
  holds f = Json spec -> wf spec = true -> patchable spec = true ->
  main [prog; filepath] w
  = (Raise PermissionError,
     World (files w) (stdout w)
           (opened w ++ [OpenRead filepath; OpenWrite filepath]))
  /\ run [prog; filepath] w
     = (1%Z, World (files w) (stdout w)
                   (opened w ++ [OpenRead filepath; OpenWrite filepath])).
Proof.
  intros Hf Hr Hw Hh Hwf Hp.
  assert (main [prog; filepath] w
          = (Raise PermissionError,
             World (files w) (stdout w)
                   (opened w ++ [OpenRead filepath; OpenWrite filepath])))
    as Hmain.
  { rewrite main_two, patch_spec_eq. cbn zeta.
    rewrite Hf, Hr, Hh, (patch_doc_total _ Hwf), Hp. cbn zeta. rewrite Hw.
    unfold log. cbn [files stdout opened]. now rewrite <- app_assoc. }
  split; [exact Hmain|]. now rewrite (run_main _ _ _ _ Hmain).
Qed.

Lemma unwritable_file_prints_nothing_witness :
  run [PROGRAM; OPENAPI] (read_only (schemas_doc (card_details (PBool false))))
  = (1%Z, World {[ OPENAPI := File true false
                      (Json (schemas_doc (card_details (PBool false)))) ]}
                [] ([] ++ [OpenRead OPENAPI; OpenWrite OPENAPI])).
Proof.
  apply (proj2 (unwritable_file_prints_nothing PROGRAM
                  (read_only (schemas_doc (card_details (PBool false))))
                  OPENAPI
                  (File true false (Json (schemas_doc (card_details (PBool false)))))
                  (schemas_doc (card_details (PBool false)))
                  eq_refl eq_refl eq_refl eq_refl eq_refl eq_refl)).
Defined.

(** X4: a run changes no file but the one named by its argument: whatever
    the arguments and the outcome, every other path holds afterwards what
    it held before. *)
Theorem other_files_untouched argv w p :
  nth_error argv 1 <> Some p ->
  files (snd (run argv w)) !! p = files w !! p.
Proof.
  intros Hp. unfold run, main.
  destruct (Nat.eqb (length argv) 2) eqn:Hlen; cbn [negb]; [|reflexivity].
  destruct argv as [|prog [|filepath [|x rest]]]; try discriminate.
  cbn [nth_error] in *. rewrite patch_spec_eq. cbn zeta.
  destruct (files w !! filepath) as [f|]; [|reflexivity].
  destruct (readable f); [|reflexivity].
  destruct (holds f) as [|spec]; [reflexivity|].
  destruct (patch_doc spec) as [[spec' patched]|e]; [|reflexivity].
  destruct (writable f); [|reflexivity].
  cbn [snd files]. apply lookup_insert_ne. congruence.
Qed.

Lemma other_files_untouched_witness :
  files (snd (run [PROGRAM; OPENAPI]
                  (two_files (schemas_doc (card_details (PBool false)))
                             (schemas_doc (card_details (PBool false))))))
    !! "other.json"
  = files (two_files (schemas_doc (card_details (PBool false)))
                     (schemas_doc (card_details (PBool false))))
      !! "other.json".
Proof.
  apply (other_files_untouched [PROGRAM; OPENAPI]
           (two_files (schemas_doc (card_details (PBool false)))
                      (schemas_doc (card_details (PBool false))))
           "other.json").
  simpl. discriminate.
Defined.





(** X6: the only file a run ever opens is the one named by its argument:
    it opens nothing, or that file for reading, or that file for reading and
    then once for writing. *)
Theorem opens_only_its_argument argv w :
  opened (snd (run argv w)) = opened w
  \/ exists filepath,
       nth_error argv 1 = Some filepath
       /\ (opened (snd (run argv w)) = opened w ++ [OpenRead filepath]
           \/ opened (snd (run argv w))
              = opened w ++ [OpenRead filepath; OpenWrite filepath]).
Proof.
  unfold run, main.
  destruct (Nat.eqb (length argv) 2) eqn:Hlen; cbn [negb]; [|now left].
  destruct argv as [|prog [|filepath [|x rest]]]; try discriminate.
  right. exists filepath. split; [reflexivity|].
  cbn [nth_error]. rewrite patch_spec_eq. cbn zeta.
  destruct (files w !! filepath) as [f|]; [|now left].
  destruct (readable f); [|now left].
  destruct (holds f) as [|spec]; [now left|].
  destruct (patch_doc spec) as [[spec' patched]|e]; [|now left].
  right. destruct (writable f); cbn [snd log opened]; now rewrite <- app_assoc.
Qed.

Lemma filter_nil_iff {A : Type} (test : A -> bool) (l : list A) :
  List.filter test l = [] <-> forall x, In x l -> test x = false.
Proof.
  induction l as [|a l IH]; simpl.
  - split; [intros _ x [] | reflexivity].
  - destruct (test a) eqn:Ha.
    + split; [discriminate|]. intros H. rewrite (H a) in Ha by now left.
      discriminate.
    + rewrite IH. split.
      * intros H x [<-|Hx]; auto.
      * intros H x Hx. apply H. now right.
Qed.

Lemma relax_schemas_fixed names s :
  wf s = true -> patched_names names s = [] -> relax_schemas names s = s.
Proof.
  intros Hwf Hnil. destruct s as [| | | | | |d]; try reflexivity.
  apply map_members_id; [|now apply wf_distinct].
  intros k v Hk. destruct (mem k names) eqn:Hmem; [|reflexivity].
  unfold patched_names in Hnil. rewrite filter_nil_iff in Hnil.
  apply mem_In in Hmem. specialize (Hnil k Hmem). cbn beta in Hnil.
  rewrite Hk in Hnil. unfold relax_entry. now rewrite Hnil.
Qed.

Lemma schemas_of_shape spec s :
  schemas_of spec = Some s ->
  exists top c, spec = PDict top
                /\ dict_get "components" top = Some (PDict c)
                /\ dict_get "schemas" c = Some s.
Proof.
  unfold schemas_of. destruct spec as [| | | | | |top]; try discriminate.
  cbn [member]. destruct (dict_get "components" top) as [[| | | | | |c]|] eqn:Hc;
    try discriminate.
  cbn [member]. intros Hs. now exists top, c.
Qed.

(** The relaxed document is the document itself exactly when no listed
    entry needs the patch. *)
Lemma relax_doc_fixed_iff spec :
  wf spec = true ->
  relax_doc spec = spec
  <-> patched_names SCHEMAS_TO_PATCH (schemas_or_empty spec) = [].
Proof.
  intros Hwf. split.
  - intros Hfix.
    destruct (patched_names SCHEMAS_TO_PATCH (schemas_or_empty spec))
      as [|n l] eqn:Hp; [reflexivity|].
    assert (In n (patched_names SCHEMAS_TO_PATCH (schemas_or_empty spec))) as Hin
      by (rewrite Hp; now left).
    unfold patched_names in Hin. apply filter_In in Hin as [Hn Htest].
    rewrite <- schema_entry_schemas_or_empty in Htest.
    destruct (schema_entry spec n) as [e|] eqn:He; [|discriminate].
    pose proof (schema_entry_relax_doc spec n) as Hrel.
    rewrite Hfix, He in Hrel. apply mem_In in Hn. rewrite Hn in Hrel.
    cbn [option_map] in Hrel. injection Hrel as Hrel.
    exfalso. apply (relax_entry_changes_iff e (wf_schema_entry _ _ _ Hwf He));
      [exact Htest | now symmetry].
  - intros Hnil. unfold schemas_or_empty in Hnil.
    destruct (schemas_of spec) as [s|] eqn:Hs; [|now apply relax_doc_detached].
    destruct (schemas_of_shape _ _ Hs) as (top & c & -> & Hc & Hsc).
    rewrite (relax_doc_attached _ _ _ Hwf Hc Hsc).
    rewrite relax_schemas_fixed; [now apply reattach_same| |assumption].
    eapply wf_dict_get; [|exact Hsc]. eapply wf_dict_get; eauto.
Qed.

Lemma summary_nothing_iff patched :
  summary patched = "No schemas needed patching" <-> patched = [].
Proof.
  split; [|now intros ->]. now destruct patched.
Qed.

(** X7: a completed run prints "No schemas needed patching" exactly when
    the document it wrote is the document it read. *)
Theorem nothing_to_patch_iff_unchanged w filepath spec v w' :
  loads w filepath spec -> wf spec = true ->
  patch_spec filepath w = (Ok v, w') ->
  stdout w' = stdout w ++ ["No schemas needed patching"]
  <-> files w' !! filepath = Some (File true true (Json spec)).
Proof.
  intros Hl Hwf Hrun.
  destruct (patch_spec_inv _ _ _ _ Hrun)
    as (_ & spec0 & spec' & patched & Hl0 & Hdoc & -> & ->).
  rewrite (loads_unique _ _ _ _ Hl Hl0) in Hdoc.
  destruct (patch_doc_spec _ _ _ Hwf Hdoc) as [-> ->].
  rewrite lookup_insert_eq. split.
  - intros H. apply app_inv_head in H. injection H as H.
    apply summary_nothing_iff in H. apply (relax_doc_fixed_iff _ Hwf) in H.
    now rewrite H.
  - intros [= H]. apply (relax_doc_fixed_iff _ Hwf) in H. now rewrite H.
Qed.

Lemma nothing_to_patch_iff_unchanged_witness :
  stdout (snd (patch_spec OPENAPI (world_with (schemas_doc unrelated))))
  = [] ++ ["No schemas needed patching"]
  <-> files (snd (patch_spec OPENAPI (world_with (schemas_doc unrelated)))) !! OPENAPI
      = Some (File true true (Json (schemas_doc unrelated))).
Proof.
  apply (nothing_to_patch_iff_unchanged (world_with (schemas_doc unrelated))
           OPENAPI (schemas_doc unrelated) PNone
           (snd (patch_spec OPENAPI (world_with (schemas_doc unrelated))))
           (ex_intro _ _ (conj eq_refl (conj eq_refl eq_refl)))
           eq_refl eq_refl).
Defined.



Lemma keys_of_map_members g v : keys_of (map_members g v) = keys_of v.
Proof. destruct v; try reflexivity. simpl. now rewrite map_map. Qed.

Lemma filter_not_mem key (l : list string) :
  mem key l = false ->
  List.filter (fun k => negb (String.eqb k key)) l = l.
Proof.
  induction l as [|x l IH]; simpl; [reflexivity|].
  rewrite orb_false_iff. intros [Hx Hl].
  rewrite String.eqb_sym, Hx. simpl. now rewrite IH.
Qed.

Lemma keys_dict_del key (d : list (string * pyval)) :
  distinct (map fst d) = true ->
  map fst (dict_del key d)
  = List.filter (fun k => negb (String.eqb k key)) (map fst d).
Proof.
  induction d as [|[k x] d IH]; simpl; [reflexivity|].
  rewrite andb_true_iff, negb_true_iff. intros [Hk Hd].
  rewrite (String.eqb_sym k key).
  destruct (String.eqb key k) eqn:E; simpl.
  - apply String.eqb_eq in E. subst k. now rewrite filter_not_mem.
  - now rewrite IH.
Qed.

(** X8: a completed patch keeps every key in its place.  The root, the
    [components] object and the [schemas] object have the same keys in the
    same order afterwards, and the fields of every schema are those it had,
    in their order, with at most the target field taken out. *)
Theorem keys_keep_their_order spec spec' patched :
  wf spec = true -> patch_doc spec = Ok (spec', patched) ->
  keys_of spec' = keys_of spec
  /\ (forall components, member "components" spec = Some components ->
        exists components',
          member "components" spec' = Some components'
          /\ keys_of components' = keys_of components)
  /\ (forall schemas, schemas_of spec = Some schemas ->
        exists schemas',
          schemas_of spec' = Some schemas'
          /\ keys_of schemas' = keys_of schemas)
  /\ (forall name entry, schema_entry spec name = Some entry ->
        exists entry',
          schema_entry spec' name = Some entry'
          /\ (keys_of entry' = keys_of entry
              \/ keys_of entry'
                 = List.filter (fun k => negb (String.eqb k TARGET))
                               (keys_of entry))).
Proof.
  intros Hwf Hdoc. destruct (patch_doc_spec _ _ _ Hwf Hdoc) as [-> _].
  split; [apply keys_of_map_members|]. split; [|split].
  - intros components Hc. unfold relax_doc. rewrite member_at_member, Hc.
    eexists. split; [reflexivity|]. apply keys_of_map_members.
  - intros schemas Hs. rewrite schemas_of_relax_doc, Hs.
    eexists. split; [reflexivity|]. apply keys_of_map_members.
  - intros name entry He. rewrite schema_entry_relax_doc, He.
    cbn [option_map]. eexists. split; [reflexivity|].
    destruct (mem name SCHEMAS_TO_PATCH); [|now left].
    unfold relax_entry. destruct (needs_patch entry); [|now left].
    right. pose proof (wf_schema_entry _ _ _ Hwf He) as Hwfe.
    destruct entry as [| | | | | |m]; try reflexivity.
    apply keys_dict_del. now apply wf_distinct.
Qed.

Lemma keys_keep_their_order_witness :
  exists entry',
    schema_entry (relax_doc (schemas_doc three_schemas)) "AIIdentificationInput"
    = Some entry'
    /\ (keys_of entry'
        = keys_of (PDict [("type", PStr "object"); (TARGET, PBool false)])
        \/ keys_of entry'
           = List.filter (fun k => negb (String.eqb k TARGET))
               (keys_of (PDict [("type", PStr "object"); (TARGET, PBool false)]))).
Proof.
  pose proof (keys_keep_their_order (schemas_doc three_schemas)
                (relax_doc (schemas_doc three_schemas))
                ["AIIdentificationInput"; "IdentifyCardResponseInput"]
                eq_refl eq_refl) as (_ & _ & _ & H).
  apply H. reflexivity.
Defined.

Lemma entries_ok_member names s name entry :
  entries_ok names s = true -> In name names -> member name s = Some entry ->
  is_dict entry = true.
Proof.
  unfold entries_ok. rewrite forallb_forall. intros H Hin He.
  specialize (H name Hin). cbn beta in H. rewrite He in H. now destruct entry.
Qed.

Lemma patchable_entries_ok spec d :
  patchable spec = true -> schemas_of spec = Some (PDict d) ->
  entries_ok SCHEMAS_TO_PATCH (PDict d) = true.
Proof.
  intros Hp Hs. destruct (schemas_of_shape _ _ Hs) as (top & c & -> & Hc & Hsc).
  unfold patchable in Hp. now rewrite Hc, Hsc in Hp.
Qed.

(** X9: what a completed patch achieves.  Afterwards every listed name
    that [components.schemas] has is bound to an object on which the test of
    line 45 fails: the object has no [additionalProperties] equal to
    [False], in particular none that is the boolean false. *)
Theorem listed_schemas_are_relaxed spec spec' patched name entry' :
  wf spec = true -> patch_doc spec = Ok (spec', patched) ->
  In name SCHEMAS_TO_PATCH -> schema_entry spec' name = Some entry' ->
  is_dict entry' = true
  /\ needs_patch entry' = false
  /\ target_is_false entry' = false.
Proof.
  intros Hwf Hdoc Hin He'.
  assert (patchable spec = true) as Hp.
  { rewrite (patch_doc_total _ Hwf) in Hdoc.
    now destruct (patchable spec). }
  destruct (patch_doc_spec _ _ _ Hwf Hdoc) as [-> _].
  rewrite schema_entry_relax_doc in He'.
  destruct (schema_entry spec name) as [entry|] eqn:He; [|discriminate].
  pose proof Hin as Hmem. apply mem_In in Hmem. rewrite Hmem in He'.
  injection He' as <-.
  pose proof (wf_schema_entry _ _ _ Hwf He) as Hwfe.
  assert (needs_patch (relax_entry entry) = false) as Hnp
    by now apply needs_patch_relax.
  split; [|split; [exact Hnp|]].
  - unfold schema_entry in He.
    destruct (schemas_of spec) as [s|] eqn:Hs; [|discriminate].
    destruct s as [| | | | | |d]; try discriminate.
    pose proof (patchable_entries_ok _ _ Hp Hs) as Hok.
    pose proof (entries_ok_member _ _ _ _ Hok Hin He) as Hd.
    destruct entry as [| | | | | |m]; try discriminate.
    now destruct (relax_entry_dict m) as [m' ->].
  - destruct (target_is_false (relax_entry entry)) eqn:Ht; [|reflexivity].
    apply target_is_false_needs_patch in Ht. congruence.
Qed.

Lemma listed_schemas_are_relaxed_witness :
  is_dict (PDict [("type", PStr "object")]) = true
  /\ needs_patch (PDict [("type", PStr "object")]) = false
  /\ target_is_false (PDict [("type", PStr "object")]) = false.
Proof.
  apply (listed_schemas_are_relaxed (schemas_doc (card_details (PInt 0)))
           (schemas_doc card_details_patched) ["CardDetailsInput"]
           "CardDetailsInput" (PDict [("type", PStr "object")])).
  - reflexivity.
  - reflexivity.
  - simpl. auto.
  - reflexivity.
Defined.

(** X10: which names a completed patch records.  A name is in [patched]
    exactly when it is listed and [components.schemas] binds it to an object
    whose [additionalProperties] is present with a value that Python's [==]
    equates with [False]: the boolean false, the integer 0, or a
    floating-point zero of either sign. *)
Theorem patched_iff_equal_to_False spec spec' patched name :
  wf spec = true -> patch_doc spec = Ok (spec', patched) ->
  In name patched
  <-> In name SCHEMAS_TO_PATCH
      /\ exists entry v,
           schema_entry spec name = Some entry
           /\ member TARGET entry = Some v
           /\ (v = PBool false \/ v = PInt 0
               \/ exists s, v = PFloat (S754_zero s)).
Proof.
  intros Hwf Hdoc. destruct (patch_doc_spec _ _ _ Hwf Hdoc) as [_ ->].
  unfold patched_names. rewrite filter_In, <- schema_entry_schemas_or_empty.
  split.
  - intros [Hin Htest]. split; [exact Hin|].
    destruct (schema_entry spec name) as [entry|]; [|discriminate].
    apply needs_patch_iff in Htest as (v & Hv & Hcases).
    now exists entry, v.
  - intros (Hin & entry & v & -> & Hv & Hcases). split; [exact Hin|].
    apply needs_patch_iff. now exists v.
Qed.

Lemma patched_iff_equal_to_False_witness :
  In "AIIdentificationInput"
     ["AIIdentificationInput"; "IdentifyCardResponseInput"]
  <-> In "AIIdentificationInput" SCHEMAS_TO_PATCH
      /\ exists entry v,
           schema_entry (schemas_doc three_schemas) "AIIdentificationInput"
           = Some entry
           /\ member TARGET entry = Some v
           /\ (v = PBool false \/ v = PInt 0
               \/ exists s, v = PFloat (S754_zero s)).
Proof.
  apply (patched_iff_equal_to_False (schemas_doc three_schemas)
           (relax_doc (schemas_doc three_schemas))
           ["AIIdentificationInput"; "IdentifyCardResponseInput"]
           "AIIdentificationInput"); reflexivity.
Defined.

End Further.
